(** * Ledger-style hardware wallet simulator: screen state machine and
      mock address derivation

    A shallow embedding of the logic of the single-file React component
    [LedgerStyleSimulator]: the utilities [clamp] and [pseudoHash], the app
    catalogue [apps], and the handlers [left], [right], [confirm], [back]
    together with the setters and timers they use.

    Conventions.
    - A JavaScript number that only ever holds an integer is a [Z]; the
      places where the source relies on 32-bit conversions or on the
      rounding of a double are written out ([toInt32], [toUint32],
      [roundDouble]).
    - The input of [pseudoHash] is read only through [charCodeAt], so it is
      the list of its UTF-16 code units ([list Z]).  Strings the component
      builds itself (pins, toasts, labels, hash output) are ASCII and are
      [string]s; [codes] turns one into its code units.
    - [undefined] coming out of an out-of-range array read is [None]. *)

From Stdlib Require Import ZArith List String Ascii Bool Lia.
Import ListNotations.

Local Open Scope string_scope.
Local Open Scope Z_scope.

(* ------------------------------------------------------------------ *)
(** ** JavaScript number conversions *)

Module JS.

(** [ToUint32]: the integer modulo 2^32. *)
Definition toUint32 (z : Z) : Z := z mod 2 ^ 32.

(** [ToInt32]: the representative of [z] modulo 2^32 in [-2^31, 2^31). *)
Definition toInt32 (z : Z) : Z :=
  let u := z mod 2 ^ 32 in
  if u <? 2 ^ 31 then u else u - 2 ^ 32.

(** [a ^ b] on numbers: both operands through [ToInt32], the result an
    int32. *)
Definition bxor (a b : Z) : Z :=
  toInt32 (Z.lxor (toUint32 a) (toUint32 b)).

(** [a << n] for [0 <= n < 32]. *)
Definition shl (a n : Z) : Z := toInt32 (Z.shiftl (toInt32 a) n).

(** [a >> n] for [0 <= n < 32]: sign-propagating. *)
Definition sar (a n : Z) : Z := Z.shiftr (toInt32 a) n.

(** [a >>> 0]. *)
Definition ushr0 (a : Z) : Z := toUint32 a.

(** The double nearest to the integer [z] (round to nearest, ties to
    even significand): what the product of two integer-valued doubles
    is once it no longer fits in 53 bits.  Far below the overflow
    threshold, so the result is again an integer. *)
Definition roundDouble (z : Z) : Z :=
  let a := Z.abs z in
  let e := Z.log2 a in
  if e <? 53 then z
  else
    let ulp := 2 ^ (e - 52) in
    let q := a / ulp in
    let r := a mod ulp in
    let q' := if 2 * r <? ulp then q
              else if ulp <? 2 * r then q + 1
              else if Z.even q then q else q + 1 in
    Z.sgn z * (q' * ulp).

(** [a * b] on integer-valued doubles. *)
Definition mul (a b : Z) : Z := roundDouble (a * b).

(** One hexadecimal digit, lower case. *)
Definition hexDigit (d : Z) : ascii :=
  if d <? 10 then ascii_of_nat (Z.to_nat (48 + d))
  else ascii_of_nat (Z.to_nat (87 + d)).

(** The digits of a positive integer in base 16, most significant
    first; [fuel] bounds the number of digits. *)
Fixpoint hexDigits (fuel : nat) (z : Z) (acc : string) : string :=
  match fuel with
  | O => acc
  | S f =>
      let acc' := String (hexDigit (z mod 16)) acc in
      if z / 16 =? 0 then acc' else hexDigits f (z / 16) acc'
  end.

(** [h.toString(16)] for an integer [h]. *)
Definition toString16 (h : Z) : string :=
  let a := Z.abs h in
  let ds := hexDigits (S (Z.to_nat (Z.log2 a))) a "" in
  if h <? 0 then String "-" ds else ds.

(** [s.slice(-n)]: the last [n] characters (all of [s] when shorter);
    [-0] is [0], so [s.slice(-0)] is all of [s]. *)
Definition sliceLast (n : nat) (s : string) : string :=
  match n with
  | O => s
  | S _ => substring (String.length s - n) n s
  end.

(** [s.slice(0, n)]. *)
Definition sliceTo (n : nat) (s : string) : string := substring 0 n s.

(** [s.padEnd(n, c)] with a one-character filler. *)
Fixpoint replicate (n : nat) (c : ascii) : string :=
  match n with O => "" | S k => String c (replicate k c) end.

Definition padEnd (n : nat) (c : ascii) (s : string) : string :=
  s ++ replicate (n - String.length s) c.

(** The UTF-16 code units of an ASCII string. *)
Definition codes (s : string) : list Z :=
  map (fun c => Z.of_nat (nat_of_ascii c)) (list_ascii_of_string s).

End JS.

(* ------------------------------------------------------------------ *)
(** ** Utilities *)

(** [clamp = (n, min, max) => Math.max(min, Math.min(max, n))] *)
Definition clamp (n min max : Z) : Z := Z.max min (Z.min max n).

(** The [for] loop of [pseudoHash]: one round per code unit. *)
Definition mix (hs : Z * Z) (c : Z) : Z * Z :=
  let '(h1, h2) := hs in
  let h1 := JS.bxor h1 c in
  let h1 := JS.ushr0 (JS.mul h1 0x01000193) in
  let h2 := JS.bxor h2 (JS.shl h2 5 + JS.sar h2 2 + c) in
  let h2 := JS.ushr0 h2 in
  (h1, h2).

Definition mixAll (input : list Z) : Z * Z :=
  fold_left mix input (0x811c9dc5, 0x45d9f3b).

(** [hex = h => ("00000000" + h.toString(16)).slice(-8)] *)
Definition hex (h : Z) : string :=
  JS.sliceLast 8 ("00000000" ++ JS.toString16 h).

(** The [while (out.length < len)] loop; [h1++] and [h2--] hand the old
    value to [hex].  [fuel] bounds the number of rounds. *)
Fixpoint fill (fuel : nat) (out : string) (h1 h2 : Z) (len : nat) : string :=
  if (String.length out <? len)%nat then
    match fuel with
    | O => out
    | S f => fill f (out ++ hex h1 ++ hex h2) (h1 + 1) (h2 - 1) len
    end
  else out.

(** [pseudoHash(input, len)]; each round appends 16 characters, so [len]
    rounds are more than the loop can take. *)
Definition pseudoHash (input : list Z) (len : nat) : string :=
  let '(h1, h2) := mixAll input in
  JS.sliceTo len (fill len "" h1 h2 len).

(** The default [len = 40]. *)
Definition pseudoHash_default (input : list Z) : string := pseudoHash input 40.

(** [shorten(addr, prefix, suffix)]; the separator is U+2026, given here
    by its UTF-8 bytes. *)
Definition ellipsis : string :=
  String (ascii_of_nat 226) (String (ascii_of_nat 128)
    (String (ascii_of_nat 166) EmptyString)).

Definition shorten (addr : string) (prefix suffix : nat) : string :=
  match addr with
  | EmptyString => ""
  | _ => JS.sliceTo prefix addr ++ ellipsis ++ JS.sliceLast suffix addr
  end.

(* ------------------------------------------------------------------ *)
(** ** Types and the demo app catalogue *)

Record WalletApp := {
  key : string;
  name : string;
  address : list Z -> string;
  currency : string;
  decimals : Z
}.

Definition btc : WalletApp := {|
  key := "btc"; name := "Bitcoin"; currency := "BTC"; decimals := 8;
  address := fun seed => "bc1" ++ pseudoHash (seed ++ JS.codes ":btc") 36 |}.

Definition eth : WalletApp := {|
  key := "eth"; name := "Ethereum"; currency := "ETH"; decimals := 18;
  address := fun seed => "0x" ++ pseudoHash (seed ++ JS.codes ":eth") 40 |}.

Definition sol : WalletApp := {|
  key := "sol"; name := "Solana"; currency := "SOL"; decimals := 9;
  address := fun seed => pseudoHash (seed ++ JS.codes ":sol") 44 |}.

Definition apps : list WalletApp := [btc; eth; sol].

(** [a[i]] for an integer [i]: [None] is [undefined]. *)
Definition at_index {A} (a : list A) (i : Z) : option A :=
  if i <? 0 then None else nth_error a (Z.to_nat i).

(** [TX_REVIEW]'s [approved?: boolean] is absent ([None]) until set. *)
Inductive Screen :=
| SPLASH
| LOCK (pin : string) (cursor : Z)
| HOME
| APPS (index : Z)
| ADDRESS (app : option WalletApp)
| TX_REVIEW (app : option WalletApp) (step : Z) (approved : option bool)
| SETTINGS (index : Z).

(** How [approved] is read ([if (approved)]): absent counts as false. *)
Definition truthy (b : option bool) : bool :=
  match b with Some true => true | _ => false end.

(** The component's state: the four [useState] cells, and the one-shot
    timers that are scheduled and have not fired yet ([homeTimers]: the
    300ms jump to [HOME] after a good PIN; [toastTimers]: the 1500ms
    toast clears).  The splash timer needs no counter: it exists exactly
    while the screen is [SPLASH]. *)
Record DeviceState := mkState {
  powered : bool;
  seed : string;
  screen : Screen;
  toast : option string;
  homeTimers : nat;
  toastTimers : nat
}.

Definition setPowered (b : bool) (st : DeviceState) : DeviceState :=
  mkState b (seed st) (screen st) (toast st) (homeTimers st) (toastTimers st).

Definition setScreen (s : Screen) (st : DeviceState) : DeviceState :=
  mkState (powered st) (seed st) s (toast st) (homeTimers st) (toastTimers st).

Definition setToast (t : option string) (st : DeviceState) : DeviceState :=
  mkState (powered st) (seed st) (screen st) t (homeTimers st) (toastTimers st).

(** [setTimeout(() => setToast(null), 1500)] *)
Definition scheduleToastClear (st : DeviceState) : DeviceState :=
  mkState (powered st) (seed st) (screen st) (toast st) (homeTimers st)
          (S (toastTimers st)).

(** [setTimeout(() => setScreen({ id: "HOME" }), 300)] *)
Definition scheduleHome (st : DeviceState) : DeviceState :=
  mkState (powered st) (seed st) (screen st) (toast st) (S (homeTimers st))
          (toastTimers st).

Definition showToast (msg : string) (st : DeviceState) : DeviceState :=
  scheduleToastClear (setToast (Some msg) st).

(** The mock transaction of [useMemo]; [amount] and [fee] are kept as the
    text the template strings print for [0.042] and [0.00021]. *)
Record Transaction := {
  to : string;
  amount : string;
  fee : string;
  network : string
}.

Definition tx (seed : string) : Transaction := {|
  to := JS.sliceTo 42 (address (nth 1 apps eth) (JS.codes seed));
  amount := "0.042";
  fee := "0.00021";
  network := "Ethereum" |}.

Record TxStep := { title : string; value : string }.

Definition txSteps (t : Transaction) : list TxStep := [
  {| title := "Review"; value := "Transaction" |};
  {| title := "Network"; value := network t |};
  {| title := "To"; value := shorten (to t) 10 10 |};
  {| title := "Amount"; value := amount t ++ " ETH" |};
  {| title := "Max Fee"; value := fee t ++ " ETH" |};
  {| title := "Hold both"; value := "to approve" |} ].

Record MenuEntry := { label : string; action : DeviceState -> DeviceState }.

(** [settingsMenu] is rebuilt at every render: its closures see the
    [powered] of the state they were built in. *)
Definition settingsMenu (st : DeviceState) : list MenuEntry := [
  {| label := "Brightness"; action := showToast "Max" |};
  {| label := "About"; action := showToast "v1.0 demo" |};
  {| label := "Lock"; action := setScreen (LOCK "" 0) |};
  {| label := if powered st then "Power Off" else "Power On";
     action := setPowered (negb (powered st)) |} ].

Definition len {A} (a : list A) : Z := Z.of_nat (List.length a).

(* ------------------------------------------------------------------ *)
(** ** The handlers *)

Definition left (st : DeviceState) : DeviceState :=
  if negb (powered st) then st else
  match screen st with
  | APPS index => setScreen (APPS (clamp (index - 1) 0 (len apps - 1))) st
  | TX_REVIEW app step approved =>
      setScreen
        (TX_REVIEW app (clamp (step - 1) 0 (len (txSteps (tx (seed st))) - 1))
                   approved) st
  | SETTINGS index =>
      setScreen (SETTINGS (clamp (index - 1) 0 (len (settingsMenu st) - 1))) st
  | LOCK pin cursor => setScreen (LOCK pin (clamp (cursor - 1) 0 3)) st
  | _ => st
  end.

Definition right (st : DeviceState) : DeviceState :=
  if negb (powered st) then st else
  match screen st with
  | APPS index => setScreen (APPS (clamp (index + 1) 0 (len apps - 1))) st
  | TX_REVIEW app step approved =>
      setScreen
        (TX_REVIEW app (clamp (step + 1) 0 (len (txSteps (tx (seed st))) - 1))
                   approved) st
  | SETTINGS index =>
      setScreen (SETTINGS (clamp (index + 1) 0 (len (settingsMenu st) - 1))) st
  | LOCK pin cursor => setScreen (LOCK pin (clamp (cursor + 1) 0 3)) st
  | _ => st
  end.

(** [Number(x) || 0] for [x] one character or [undefined]: a decimal digit
    gives its value; white space gives 0; anything else gives NaN, which
    [||] turns into 0. *)
Definition numberOr0 (x : option ascii) : Z :=
  match x with
  | Some c =>
      let n := Z.of_nat (nat_of_ascii c) in
      if (48 <=? n) && (n <=? 57) then n - 48 else 0
  | None => 0
  end.

(** [String(d)] for [0 <= d <= 9]. *)
Definition digitChar (d : Z) : ascii := ascii_of_nat (Z.to_nat (48 + d)).

(** [next[i] = v] as [next.join("")] sees it: inside the array the slot is
    replaced; past the end the array grows with holes, which join as empty
    strings; a negative [i] only adds a property. *)
Definition assign (next : list ascii) (i : Z) (v : ascii) : list ascii :=
  if i <? 0 then next
  else if i <? len next then
    firstn (Z.to_nat i) next ++ v :: skipn (S (Z.to_nat i)) next
  else next ++ [v].

Definition isPlaceholder (c : ascii) : bool := Ascii.eqb c "_".

(** The [committed] string of the [LOCK] branch of [confirm]. *)
Definition commitPin (pin : string) (cursor : Z) : string :=
  let nextPin := JS.padEnd 4 "_" pin in
  let next := list_ascii_of_string nextPin in
  let d := digitChar ((numberOr0 (at_index next cursor) + 1) mod 10) in
  let next := assign next cursor d in
  string_of_list_ascii (filter (fun c => negb (isPlaceholder c)) next).

(** [confirm]; [None] is the [TypeError] of reading [.action] of
    [undefined], thrown before any setter has run. *)
Definition confirm (st : DeviceState) : option DeviceState :=
  if negb (powered st) then Some st else
  match screen st with
  | LOCK pin cursor =>
      if String.eqb pin "1234" then Some (setScreen HOME st)
      else
        let committed := commitPin pin cursor in
        let st := setScreen (LOCK committed cursor) st in
        let st :=
          if (String.length committed =? 4)%nat
          then showToast (if String.eqb committed "1234"
                          then "PIN OK" else "Wrong PIN") st
          else st in
        let st := if String.eqb committed "1234" then scheduleHome st else st in
        Some st
  | HOME => Some (setScreen (APPS 0) st)
  | APPS index => Some (setScreen (ADDRESS (at_index apps index)) st)
  | ADDRESS app => Some (setScreen (TX_REVIEW app 0 None) st)
  | TX_REVIEW app step approved =>
      if step <? len (txSteps (tx (seed st))) - 1
      then Some (setScreen (TX_REVIEW app (step + 1) approved) st)
      else Some (setScreen (TX_REVIEW app step (Some true)) st)
  | SETTINGS index =>
      match at_index (settingsMenu st) index with
      | Some entry => Some (action entry st)
      | None => None
      end
  | SPLASH => Some st
  end.

Definition back (st : DeviceState) : DeviceState :=
  if negb (powered st) then st else
  match screen st with
  | APPS _ | SETTINGS _ => setScreen HOME st
  | ADDRESS _ => setScreen (APPS 0) st
  | TX_REVIEW app _ _ => setScreen (ADDRESS app) st
  | _ => st
  end.

(** The power button and the [P] key. *)
Definition togglePower (st : DeviceState) : DeviceState :=
  setPowered (negb (powered st)) st.

(** The Settings button (and the link on the home screen); not guarded by
    [powered]. *)
Definition openSettings (st : DeviceState) : DeviceState :=
  setScreen (SETTINGS 0) st.

(** The 800ms splash timer; cancelled as soon as the screen is no longer
    [SPLASH]. *)
Definition splashTimeout (st : DeviceState) : DeviceState :=
  match screen st with
  | SPLASH => setScreen (LOCK "" 0) st
  | _ => st
  end.

(** A pending 300ms timer fires: [setScreen({ id: "HOME" })], whatever the
    screen is by then. *)
Definition homeTimeout (st : DeviceState) : DeviceState :=
  match homeTimers st with
  | S n => mkState (powered st) (seed st) HOME (toast st) n (toastTimers st)
  | O => st
  end.

(** A pending 1500ms timer fires: [setToast(null)]. *)
Definition toastTimeout (st : DeviceState) : DeviceState :=
  match toastTimers st with
  | S n => mkState (powered st) (seed st) (screen st) None (homeTimers st) n
  | O => st
  end.

(* ------------------------------------------------------------------ *)
(** ** Event traces *)

Inductive Event :=
| Left | Right | Confirm | Back | TogglePower
| OpenSettings | SplashTimeout | HomeTimeout | ToastTimeout.

Definition step (ev : Event) (st : DeviceState) : option DeviceState :=
  match ev with
  | Left => Some (left st)
  | Right => Some (right st)
  | Confirm => confirm st
  | Back => Some (back st)
  | TogglePower => Some (togglePower st)
  | OpenSettings => Some (openSettings st)
  | SplashTimeout => Some (splashTimeout st)
  | HomeTimeout => Some (homeTimeout st)
  | ToastTimeout => Some (toastTimeout st)
  end.

Fixpoint run (evs : list Event) (st : DeviceState) : option DeviceState :=
  match evs with
  | [] => Some st
  | ev :: evs' =>
      match step ev st with
      | Some st' => run evs' st'
      | None => None
      end
  end.

(** The screens shown after each event of a trace, in order. *)
Fixpoint screens (evs : list Event) (st : DeviceState) : list Screen :=
  match evs with
  | [] => []
  | ev :: evs' =>
      match step ev st with
      | Some st' => screen st' :: screens evs' st'
      | None => []
      end
  end.

(** [useState(true)], [useState(() => pseudoHash("demo-seed"))],
    [useState({ id: "SPLASH" })], [useState(null)]. *)
Definition init : DeviceState := {|
  powered := true;
  seed := pseudoHash_default (JS.codes "demo-seed");
  screen := SPLASH;
  toast := None;
  homeTimers := 0;
  toastTimers := 0 |}.

(** The address the [Address] screen prints for [app]. *)
Definition shownAddress (app : WalletApp) (st : DeviceState) : string :=
  address app (JS.codes (seed st)).

(** The alphabet of the generated characters: [0-9a-f]. *)
Definition isHexChar (c : ascii) : bool :=
  let n := nat_of_ascii c in
  ((48 <=? n) && (n <=? 57) || (97 <=? n) && (n <=? 102))%nat.

Fixpoint allChars (p : ascii -> bool) (s : string) : bool :=
  match s with
  | EmptyString => true
  | String c s' => p c && allChars p s'
  end.

(** The screen-bound fields are inside their ranges. *)
Definition inRange (s : Screen) : Prop :=
  match s with
  | LOCK _ cursor => 0 <= cursor <= 3
  | APPS index => 0 <= index <= 2
  | TX_REVIEW _ step _ => 0 <= step <= 5
  | SETTINGS index => 0 <= index <= 3
  | _ => True
  end.

(** The counts the clamps use. *)
Definition appCount : Z := len apps.
Definition stepCount (st : DeviceState) : Z := len (txSteps (tx (seed st))).
Definition menuCount (st : DeviceState) : Z := len (settingsMenu st).

(** The session's state with another screen on display. *)
Definition showing (s : Screen) : DeviceState := setScreen s init.

(** [st'] differs from [st] in its screen at most. *)
Definition sameButScreen (st st' : DeviceState) : Prop :=
  powered st' = powered st /\ seed st' = seed st /\ toast st' = toast st /\
  homeTimers st' = homeTimers st /\ toastTimers st' = toastTimers st.

(** Seven events: one [confirm] at each of the cursor positions 0..3. *)
Definition oneConfirmPerSlot : list Event :=
  [Confirm; Right; Confirm; Right; Confirm; Right; Confirm].

(** [confirm] once, twice, three and four times at the cursor positions
    0, 1, 2 and 3. *)
Definition pinEntry : list Event :=
  repeat Confirm 1 ++ [Right] ++ repeat Confirm 2 ++ [Right] ++
  repeat Confirm 3 ++ [Right] ++ repeat Confirm 4.

(** From the home screen to the review of a transaction of the second
    app, then [n] more [confirm]s. *)
Definition navigation (n : nat) : list Event :=
  [Confirm; Right; Confirm; Confirm] ++ repeat Confirm n.

(* ------------------------------------------------------------------ *)
(** ** Keyboard and renderers *)

(** [s.toLowerCase()] on an ASCII string. *)
Definition lowerChar (c : ascii) : ascii :=
  let n := nat_of_ascii c in
  if ((65 <=? n) && (n <=? 90))%nat then ascii_of_nat (n + 32) else c.

Fixpoint toLowerCase (s : string) : string :=
  match s with
  | EmptyString => EmptyString
  | String c s' => String (lowerChar c) (toLowerCase s')
  end.

(** [onKey], the [keydown] listener: [p] toggles the power in every state
    ([setPowered((v) => !v)]); the other keys are dropped while off;
    brackets and arrows call [left] and [right], Enter calls [confirm].
    ([preventDefault] does not touch the state.) *)
Definition onKey (key : string) (st : DeviceState) : option DeviceState :=
  if String.eqb (toLowerCase key) "p" then
    Some (setPowered (negb (powered st)) st)
  else if negb (powered st) then Some st
  else if String.eqb key "[" || String.eqb key "ArrowLeft" then
    Some (left st)
  else if String.eqb key "]" || String.eqb key "ArrowRight" then
    Some (right st)
  else if String.eqb key "Enter" then confirm st
  else Some st.

(** The dot of an unset PIN slot, U+2022, by its UTF-8 bytes. *)
Definition bullet : string :=
  String (ascii_of_nat 226) (String (ascii_of_nat 128)
    (String (ascii_of_nat 162) EmptyString)).

(** The texts the renderers put on the screen, without their layout.  A
    [Lock] slot is its text and whether it is the highlighted one; the
    counters [{index + 1}/{apps.length}] are kept as numbers. *)
Inductive View :=
| PowerOffView
| SplashView
| LockView (slots : list (string * bool))
| HomeView
| AppsView (name : string) (position count : Z)
| AddressView (name currency addr : string)
| ApprovedView
| TxStepView (title value : string) (position count : Z)
| SettingsView (label : string).

(** [digits.map((d, i) => ...)] of [Lock], from slot number [i] on. *)
Fixpoint lockSlots (digits : list ascii) (i cursor : Z)
  : list (string * bool) :=
  match digits with
  | [] => []
  | d :: ds =>
      ((if isPlaceholder d then bullet else String d EmptyString),
       (i =? cursor))
        :: lockSlots ds (i + 1) cursor
  end.

(** [ScreenContent] with the subcomponents it mounts; [None] is the
    [TypeError] of reading a property of [undefined]
    ([apps[index].name], [app.address], [steps[step]] then [s.title],
    [menu[index].label]). *)
Definition render (st : DeviceState) : option View :=
  if negb (powered st) then Some PowerOffView else
  match screen st with
  | SPLASH => Some SplashView
  | LOCK pin cursor =>
      Some (LockView
              (lockSlots (list_ascii_of_string (JS.padEnd 4 "_" pin)) 0 cursor))
  | HOME => Some HomeView
  | APPS index =>
      match at_index apps index with
      | Some a => Some (AppsView (name a) (index + 1) (len apps))
      | None => None
      end
  | ADDRESS app =>
      match app with
      | Some a =>
          Some (AddressView (name a) (currency a)
                            (address a (JS.codes (seed st))))
      | None => None
      end
  | TX_REVIEW _ step approved =>
      if truthy approved then Some ApprovedView
      else
        match at_index (txSteps (tx (seed st))) step with
        | Some s =>
            Some (TxStepView (title s) (value s) (step + 1)
                             (len (txSteps (tx (seed st)))))
        | None => None
        end
  | SETTINGS index =>
      match at_index (settingsMenu st) index with
      | Some e => Some (SettingsView (label e))
      | None => None
      end
  end.

(** What [k] rounds of the output loop of [pseudoHash] append, starting
    from the counters [h1] and [h2]. *)
Fixpoint rounds (k : nat) (h1 h2 : Z) : string :=
  match k with
  | O => ""
  | S k' => hex h1 ++ hex h2 ++ rounds k' (h1 + 1) (h2 - 1)
  end.

Definition isDigitChar (c : ascii) : bool :=
  let n := nat_of_ascii c in ((48 <=? n) && (n <=? 57))%nat.

(** The test of [replaceAll("_", "")]: what is not a placeholder stays. *)
Definition keep (c : ascii) : bool := negb (isPlaceholder c).

(** The payloads the handlers never range-check: a [LOCK] pin of at most
    four decimal digits, and an app that is an entry of the catalogue. *)
Definition wellFormed (s : Screen) : Prop :=
  match s with
  | LOCK pin _ =>
      allChars isDigitChar pin = true /\ (String.length pin <= 4)%nat
  | ADDRESS app | TX_REVIEW app _ _ => exists a, app = Some a /\ In a apps
  | _ => True
  end.

(** The screens in front of the PIN. *)
Definition locked (s : Screen) : bool :=
  match s with
  | SPLASH | LOCK _ _ => true
  | _ => false
  end.

(* ------------------------------------------------------------------ *)
(** ** Strings *)

Section StringFacts.

Lemma length_app (a b : string) :
  String.length (a ++ b) = (String.length a + String.length b)%nat.
Proof. induction a as [|c a IH]; simpl; [reflexivity | now rewrite IH]. Qed.

Lemma length_substring (s : string) :
  forall n m, (n + m <= String.length s)%nat ->
              String.length (substring n m s) = m.
Proof.
  induction s as [|c s IH]; intros n m H; simpl in H.
  - assert (n = 0%nat /\ m = 0%nat) as [-> ->] by lia. reflexivity.
  - destruct n as [|n]; simpl.
    + destruct m as [|m]; simpl; [reflexivity|].
      f_equal. apply IH. lia.
    + apply IH. lia.
Qed.

Variable p : ascii -> bool.

Lemma allChars_app (a b : string) :
  allChars p (a ++ b) = allChars p a && allChars p b.
Proof.
  induction a as [|c a IH]; simpl; [reflexivity|].
  now rewrite IH, andb_assoc.
Qed.

Lemma allChars_substring (s : string) :
  allChars p s = true -> forall n m, allChars p (substring n m s) = true.
Proof.
  induction s as [|c s IH]; intros H n m.
  - destruct n, m; reflexivity.
  - simpl in H. apply andb_true_iff in H as [Hc Hs].
    destruct n as [|n]; simpl.
    + destruct m as [|m]; simpl; [reflexivity|].
      rewrite Hc. simpl. now apply IH.
    + now apply IH.
Qed.

End StringFacts.

(* ------------------------------------------------------------------ *)
(** ** The address generator *)

Lemma hex_length (h : Z) : String.length (hex h) = 8%nat.
Proof.
  unfold hex, JS.sliceLast.
  apply length_substring.
  rewrite length_app.
  change (String.length "00000000") with 8%nat. lia.
Qed.

Lemma fill_length (fuel : nat) :
  forall out h1 h2 len,
    (len <= String.length out + 16 * fuel)%nat ->
    (len <= String.length (fill fuel out h1 h2 len))%nat.
Proof.
  induction fuel as [|f IH]; intros out h1 h2 len H; simpl.
  - destruct (Nat.ltb_spec (String.length out) len); lia.
  - destruct (Nat.ltb_spec (String.length out) len); [|lia].
    apply IH. rewrite !length_app, !hex_length. lia.
Qed.

(** [pseudoHash] returns exactly [len] characters, for every input: the
    loop runs to its end within the fuel. *)
Lemma pseudoHash_length (input : list Z) (len : nat) :
  String.length (pseudoHash input len) = len.
Proof.
  unfold pseudoHash. destruct (mixAll input) as [h1 h2].
  unfold JS.sliceTo. apply length_substring.
  pose proof (fill_length len "" h1 h2 len). simpl in *. lia.
Qed.

Lemma hexDigit_ok (d : Z) : 0 <= d < 16 -> isHexChar (JS.hexDigit d) = true.
Proof.
  intros H.
  assert (d = 0 \/ d = 1 \/ d = 2 \/ d = 3 \/ d = 4 \/ d = 5 \/ d = 6 \/ d = 7 \/
          d = 8 \/ d = 9 \/ d = 10 \/ d = 11 \/ d = 12 \/ d = 13 \/ d = 14 \/
          d = 15) as D by lia.
  repeat (destruct D as [-> | D]; [reflexivity|]). subst. reflexivity.
Qed.

Lemma hexDigits_ok (fuel : nat) :
  forall z acc, allChars isHexChar acc = true ->
                allChars isHexChar (JS.hexDigits fuel z acc) = true.
Proof.
  induction fuel as [|f IH]; intros z acc H; simpl; [exact H|].
  assert (allChars isHexChar (String (JS.hexDigit (z mod 16)) acc) = true) as H'.
  { simpl. rewrite hexDigit_ok, H; [reflexivity|].
    apply Z.mod_pos_bound. lia. }
  destruct (z / 16 =? 0); [exact H' | now apply IH].
Qed.

Lemma hex_ok (h : Z) : 0 <= h -> allChars isHexChar (hex h) = true.
Proof.
  intros H. unfold hex, JS.sliceLast.
  apply allChars_substring. rewrite allChars_app.
  change (allChars isHexChar "00000000") with true. simpl andb.
  unfold JS.toString16.
  destruct (Z.ltb_spec h 0); [lia|].
  now apply hexDigits_ok.
Qed.

Lemma fill_ok (fuel : nat) :
  forall out h1 h2 len,
    allChars isHexChar out = true -> 0 <= h1 ->
    Z.of_nat len <= Z.of_nat (String.length out) + 16 * (h2 + 1) ->
    allChars isHexChar (fill fuel out h1 h2 len) = true.
Proof.
  induction fuel as [|f IH]; intros out h1 h2 len Hout Hh1 Hlen; simpl.
  - now destruct (String.length out <? len)%nat.
  - destruct (Nat.ltb_spec (String.length out) len); [|exact Hout].
    apply IH.
    + rewrite !allChars_app, Hout, !hex_ok; [reflexivity | lia | lia].
    + lia.
    + rewrite !length_app, !hex_length. lia.
Qed.

Lemma mix_nonneg (hs : Z * Z) (c : Z) :
  0 <= fst (mix hs c) /\ 0 <= snd (mix hs c).
Proof.
  destruct hs as [h1 h2]. unfold mix, JS.ushr0, JS.toUint32. simpl.
  split; apply Z.mod_pos_bound; lia.
Qed.

Lemma mixAll_nonneg (input : list Z) :
  0 <= fst (mixAll input) /\ 0 <= snd (mixAll input).
Proof.
  unfold mixAll.
  assert (forall l hs, 0 <= fst hs /\ 0 <= snd hs ->
                       0 <= fst (fold_left mix l hs) /\
                       0 <= snd (fold_left mix l hs)) as G.
  { induction l as [|c l IH]; intros hs H; simpl; [exact H|].
    apply IH, mix_nonneg. }
  apply G. simpl. lia.
Qed.

(** When the second accumulator is large enough for the countdown [h2--]
    to stay non-negative over the rounds the loop takes, every generated
    character is a hexadecimal digit. *)
Lemma pseudoHash_hex (input : list Z) (len : nat) :
  Z.of_nat len <= 16 * (snd (mixAll input) + 1) ->
  allChars isHexChar (pseudoHash input len) = true.
Proof.
  intros H. unfold pseudoHash.
  pose proof (mixAll_nonneg input) as [H1 H2].
  destruct (mixAll input) as [h1 h2]. simpl in *.
  unfold JS.sliceTo. apply allChars_substring.
  apply fill_ok; simpl; [reflexivity | lia | lia].
Qed.

(** The three address shapes, for every seed: prefix and length. *)
Lemma address_shape (seed : list Z) :
  (exists g, address btc seed = "bc1" ++ g /\ String.length g = 36%nat) /\
  (exists g, address eth seed = "0x" ++ g /\ String.length g = 40%nat) /\
  (exists g, address sol seed = g /\ String.length g = 44%nat) /\
  String.length (address btc seed) = 39%nat /\
  String.length (address eth seed) = 42%nat /\
  String.length (address sol seed) = 44%nat.
Proof.
  unfold address, btc, eth, sol.
  repeat split; try (eexists; split; [reflexivity | apply pseudoHash_length]);
    rewrite ?length_app, pseudoHash_length; reflexivity.
Qed.

(** For the session's own seed all three addresses are hexadecimal after
    their prefix. *)
Lemma session_addresses_hex :
  allChars isHexChar
    (pseudoHash (JS.codes (seed init) ++ JS.codes ":btc") 36) = true /\
  allChars isHexChar
    (pseudoHash (JS.codes (seed init) ++ JS.codes ":eth") 40) = true /\
  allChars isHexChar
    (pseudoHash (JS.codes (seed init) ++ JS.codes ":sol") 44) = true.
Proof. repeat split; vm_compute; reflexivity. Qed.


(* ------------------------------------------------------------------ *)
(** ** The screen state machine *)

Lemma clamp_range (n lo hi : Z) : lo <= hi -> lo <= clamp n lo hi <= hi.
Proof. unfold clamp. lia. Qed.

Lemma counts (st : DeviceState) :
  appCount = 3 /\ stepCount st = 6 /\ menuCount st = 4.
Proof. repeat split. Qed.

Ltac break_if :=
  match goal with
  | H : context [if ?c then _ else _] |- _ => destruct c eqn:?
  | |- context [if ?c then _ else _] => destruct c eqn:?
  end.

(** In range, the settings menu always has an entry to invoke. *)
Lemma menu_entry (st : DeviceState) (index : Z) :
  0 <= index <= 3 ->
  exists e, at_index (settingsMenu st) index = Some e /\
            (screen (action e st) = screen st \/
             screen (action e st) = LOCK "" 0).
Proof.
  intros H.
  assert (index = 0 \/ index = 1 \/ index = 2 \/ index = 3) as D by lia.
  destruct D as [-> | [-> | [-> | ->]]]; eexists; (split; [reflexivity|]);
    simpl; auto.
Qed.

Lemma step_progress (ev : Event) (st : DeviceState) :
  inRange (screen st) -> exists st', step ev st = Some st'.
Proof.
  intros Hin. destruct ev; simpl; eauto.
  unfold confirm. destruct (negb (powered st)); eauto.
  destruct (screen st) eqn:E; eauto.
  - repeat break_if; eauto.
  - break_if; eauto.
  - destruct (menu_entry st index Hin) as [e [-> _]]. eauto.
Qed.

Lemma step_inRange (ev : Event) (st st' : DeviceState) :
  inRange (screen st) -> step ev st = Some st' -> inRange (screen st').
Proof.
  intros Hin Hstep. destruct ev; simpl in Hstep.
  - injection Hstep as <-. unfold left. destruct (negb (powered st)); auto.
    destruct st as [pw sd [] t h k]; simpl in *; auto;
      apply clamp_range; lia.
  - injection Hstep as <-. unfold right. destruct (negb (powered st)); auto.
    destruct st as [pw sd [] t h k]; simpl in *; auto;
      apply clamp_range; lia.
  - unfold confirm in Hstep. destruct (negb (powered st)).
    { now injection Hstep as <-. }
    destruct (screen st) eqn:E; simpl in Hin.
    + now injection Hstep as <-; rewrite E.
    + repeat break_if; injection Hstep as <-; simpl; auto.
    + injection Hstep as <-. simpl. lia.
    + now injection Hstep as <-.
    + injection Hstep as <-. simpl. lia.
    + change (len (txSteps (tx (seed st))) - 1) with 5 in Hstep.
      destruct (Z.ltb_spec step0 5); injection Hstep as <-; simpl; lia.
    + destruct (menu_entry st index Hin) as [e [He Hs]].
      rewrite He in Hstep. injection Hstep as <-.
      destruct Hs as [-> | ->]; [rewrite E; exact Hin | simpl; lia].
  - injection Hstep as <-. unfold back. destruct (negb (powered st)); auto.
    destruct st as [pw sd [] t h k]; simpl in *; auto; lia.
  - now injection Hstep as <-.
  - injection Hstep as <-. simpl. lia.
  - injection Hstep as <-. unfold splashTimeout.
    destruct st as [pw sd [] t h k]; simpl in *; auto; lia.
  - injection Hstep as <-. unfold homeTimeout.
    destruct (homeTimers st); simpl; auto.
  - injection Hstep as <-. unfold toastTimeout.
    destruct (toastTimers st); simpl; auto.
Qed.

Lemma run_inRange (evs : list Event) :
  forall st, inRange (screen st) ->
             exists st', run evs st = Some st' /\ inRange (screen st').
Proof.
  induction evs as [|ev evs IH]; intros st Hin; simpl.
  - eauto.
  - destruct (step_progress ev st Hin) as [st1 H1]. rewrite H1.
    apply IH. eapply step_inRange; eauto.
Qed.

Lemma at_index_In {A} (a : list A) (i : Z) (x : A) :
  at_index a i = Some x -> In x a.
Proof.
  unfold at_index. destruct (i <? 0); [discriminate|]. apply nth_error_In.
Qed.

Lemma step_seed (ev : Event) (st st' : DeviceState) :
  step ev st = Some st' -> seed st' = seed st.
Proof.
  intros Hstep. destruct ev; simpl in Hstep;
    try (injection Hstep as <-;
         unfold left, right, back, splashTimeout, homeTimeout, toastTimeout;
         repeat break_if; try reflexivity;
         destruct st as [pw sd [] t [] []]; reflexivity).
  unfold confirm in Hstep. destruct (negb (powered st)).
  { now injection Hstep as <-. }
  destruct (screen st); repeat break_if;
    try (injection Hstep as <-; reflexivity).
  destruct (at_index (settingsMenu st) index) as [e|] eqn:He; [|discriminate].
  injection Hstep as <-. apply at_index_In in He. simpl in He.
  destruct He as [<- | [<- | [<- | [<- | []]]]]; reflexivity.
Qed.

Lemma run_seed (evs : list Event) :
  forall st st', run evs st = Some st' -> seed st' = seed st.
Proof.
  induction evs as [|ev evs IH]; intros st st' H; simpl in H.
  - now injection H as <-.
  - destruct (step ev st) as [st1|] eqn:E; [|discriminate].
    rewrite (IH _ _ H). eapply step_seed; eauto.
Qed.

(* ------------------------------------------------------------------ *)
(** ** The claims *)

(** C3.  Every state the session can reach - by the five operations, and
    also by the Settings button and the timers - exists (no handler throws
    on the way) and has its bounded field in range: [LOCK]'s cursor in
    [0,3], [APPS]'s index in [0,2], [TX_REVIEW]'s step in [0,5],
    [SETTINGS]'s index in [0,3], where 3, 6 and 4 are the app, step and menu
    counts.  No single transition takes an in-range screen out of range,
    and [left] at 0 and [right] at N-1 leave the field where it is. *)
Theorem bounded_fields_stay_in_range :
  (forall evs, exists st, run evs init = Some st /\ inRange (screen st)) /\
  (forall ev st st',
      inRange (screen st) -> step ev st = Some st' -> inRange (screen st')) /\
  (forall st, powered st = true ->
     (forall pin, screen st = LOCK pin 0 -> screen (left st) = LOCK pin 0) /\
     (forall pin, screen st = LOCK pin 3 -> screen (right st) = LOCK pin 3) /\
     (screen st = APPS 0 -> screen (left st) = APPS 0) /\
     (screen st = APPS (appCount - 1) ->
      screen (right st) = APPS (appCount - 1)) /\
     (forall app a, screen st = TX_REVIEW app 0 a ->
                    screen (left st) = TX_REVIEW app 0 a) /\
     (forall app a, screen st = TX_REVIEW app (stepCount st - 1) a ->
                    screen (right st) = TX_REVIEW app (stepCount st - 1) a) /\
     (screen st = SETTINGS 0 -> screen (left st) = SETTINGS 0) /\
     (screen st = SETTINGS (menuCount st - 1) ->
      screen (right st) = SETTINGS (menuCount st - 1))) /\
  (forall st, appCount = 3 /\ stepCount st = 6 /\ menuCount st = 4).
Proof.
  split; [|split; [|split]].
  - intros evs. apply run_inRange. exact I.
  - exact step_inRange.
  - intros st Hp. unfold left, right. rewrite Hp. cbn [negb].
    repeat split; intros; rewrite H; reflexivity.
  - exact counts.
Qed.

Lemma bounded_fields_stay_in_range_witness :
  inRange (screen (right (showing (APPS 2)))) /\
  screen (left (showing (APPS 0))) = APPS 0.
Proof.
  split.
  - refine (proj1 (proj2 bounded_fields_stay_in_range) Right
              (showing (APPS 2)) _ _ eq_refl).
    simpl. lia.
  - exact (proj1 (proj2 (proj2 (proj1 (proj2 (proj2
             bounded_fields_stay_in_range)) (showing (APPS 0)) eq_refl)))
             eq_refl).
Defined.

(** C4.  Powered off, [left], [right], [confirm] and [back] return the
    state they were given, whole; [togglePower] flips [powered] in every
    state and touches nothing else. *)
Theorem powered_off_frame :
  (forall st, powered st = false ->
     left st = st /\ right st = st /\ confirm st = Some st /\ back st = st) /\
  (forall st,
     powered (togglePower st) = negb (powered st) /\
     screen (togglePower st) = screen st /\
     seed (togglePower st) = seed st /\
     toast (togglePower st) = toast st /\
     homeTimers (togglePower st) = homeTimers st /\
     toastTimers (togglePower st) = toastTimers st).
Proof.
  split.
  - intros st H. unfold left, right, confirm, back. rewrite H. auto.
  - intros st. repeat split.
Qed.

Lemma powered_off_frame_witness :
  left (setPowered false (showing (APPS 1))) = setPowered false (showing (APPS 1)) /\
  right (setPowered false (showing (APPS 1))) = setPowered false (showing (APPS 1)) /\
  confirm (setPowered false (showing (APPS 1)))
    = Some (setPowered false (showing (APPS 1))) /\
  back (setPowered false (showing (APPS 1))) = setPowered false (showing (APPS 1)).
Proof.
  exact (proj1 powered_off_frame (setPowered false (showing (APPS 1))) eq_refl).
Defined.

(** C6.  Powered, [confirm] on [ADDRESS app] opens [TX_REVIEW] for the same
    app at step 0 with [approved] not set, which reads as false; on
    [TX_REVIEW] below the last step it adds one to [step] and keeps
    [approved]; on the last step (step count minus one, i.e. 5) it sets
    [approved] to true and keeps [step].  Nothing but the screen changes:
    [setScreen] writes the screen it is given and no other field. *)
Theorem confirm_address_and_review :
  forall st, powered st = true ->
    (forall app, screen st = ADDRESS app ->
       confirm st = Some (setScreen (TX_REVIEW app 0 None) st) /\
       truthy None = false) /\
    (forall app step approved,
       screen st = TX_REVIEW app step approved -> step < stepCount st - 1 ->
       confirm st = Some (setScreen (TX_REVIEW app (step + 1) approved) st)) /\
    (forall app step approved,
       screen st = TX_REVIEW app step approved -> step = stepCount st - 1 ->
       confirm st = Some (setScreen (TX_REVIEW app step (Some true)) st) /\
       truthy (Some true) = true) /\
    stepCount st = 6 /\
    (forall s, screen (setScreen s st) = s /\ sameButScreen st (setScreen s st)).
Proof.
  intros st Hp. unfold confirm, stepCount. rewrite Hp. cbn [negb].
  repeat split; intros.
  - now rewrite H.
  - rewrite H. apply Z.ltb_lt in H0. now rewrite H0.
  - rewrite H. subst step0. now rewrite Z.ltb_irrefl.
Qed.

Lemma confirm_address_and_review_witness :
  confirm (showing (ADDRESS (Some sol)))
    = Some (setScreen (TX_REVIEW (Some sol) 0 None)
              (showing (ADDRESS (Some sol)))) /\
  truthy None = false.
Proof.
  exact (proj1 (confirm_address_and_review (showing (ADDRESS (Some sol)))
                  eq_refl) (Some sol) eq_refl).
Defined.

(** C7.  Powered, [back] goes from [APPS] and from [SETTINGS] to [HOME],
    from [ADDRESS] to [APPS] at index 0 whatever the app, from [TX_REVIEW]
    to [ADDRESS] of the same app whatever the step and approval; on
    [SPLASH], [LOCK] and [HOME] it returns the state unchanged.  Each
    target is given as the state and as the screen read back from it;
    [powered], [seed], [toast] and the timers are never touched. *)
Theorem back_transitions :
  forall st, powered st = true ->
    (forall index, screen st = APPS index ->
       back st = setScreen HOME st /\ screen (back st) = HOME) /\
    (forall index, screen st = SETTINGS index ->
       back st = setScreen HOME st /\ screen (back st) = HOME) /\
    (forall app, screen st = ADDRESS app ->
       back st = setScreen (APPS 0) st /\ screen (back st) = APPS 0) /\
    (forall app step approved,
       screen st = TX_REVIEW app step approved ->
       back st = setScreen (ADDRESS app) st /\
       screen (back st) = ADDRESS app) /\
    (screen st = SPLASH -> back st = st) /\
    (forall pin cursor, screen st = LOCK pin cursor -> back st = st) /\
    (screen st = HOME -> back st = st) /\
    sameButScreen st (back st).
Proof.
  intros [pw sd sc t h k] Hp. simpl in Hp. subst pw.
  unfold back, sameButScreen. cbn [powered screen negb].
  repeat split; intros; try subst sc; try reflexivity;
    destruct sc; reflexivity.
Qed.

Lemma back_transitions_witness :
  back (showing (TX_REVIEW (Some btc) 4 (Some true)))
    = setScreen (ADDRESS (Some btc))
        (showing (TX_REVIEW (Some btc) 4 (Some true))) /\
  screen (back (showing (TX_REVIEW (Some btc) 4 (Some true))))
    = ADDRESS (Some btc).
Proof.
  exact (proj1 (proj2 (proj2 (proj2
           (back_transitions (showing (TX_REVIEW (Some btc) 4 (Some true)))
              eq_refl))))
           (Some btc) 4 (Some true) eq_refl).
Defined.

(** C1 (as stated, refuted).  One [confirm] per cursor position sets each
    slot to 1: the committed pin is ["1111"], the toast says so, no jump
    to [HOME] is scheduled and the screen stays [LOCK]. *)
Lemma one_confirm_per_slot_gives_1111 :
  exists st,
    run oneConfirmPerSlot (showing (LOCK "" 0)) = Some st /\
    screen st = LOCK "1111" 3 /\
    toast st = Some "Wrong PIN" /\
    homeTimers st = 0%nat /\
    homeTimeout st = st /\
    screen st <> LOCK "1234" 3 /\ screen st <> HOME.
Proof.
  exists (mkState true (seed init) (LOCK "1111" 3) (Some "Wrong PIN") 0 1).
  repeat split; discriminate.
Qed.

(** C1 (amended).  From [LOCK] with an empty pin and the cursor at 0,
    powered, pressing [confirm] once at position 0, twice at 1, three times
    at 2 and four times at 3 takes the slots to 1, 2, 3 and 4: the
    committed pin is ["1234"], the toast is "PIN OK", one jump to [HOME] is
    scheduled, and when that timer fires the screen is [HOME]. *)
Theorem pin_entry_unlocks :
  forall st, powered st = true -> screen st = LOCK "" 0 ->
    screens pinEntry st =
      [LOCK "1" 0; LOCK "1" 1; LOCK "11" 1; LOCK "12" 1; LOCK "12" 2;
       LOCK "121" 2; LOCK "122" 2; LOCK "123" 2; LOCK "123" 3;
       LOCK "1231" 3; LOCK "1232" 3; LOCK "1233" 3; LOCK "1234" 3] /\
    exists st',
      run pinEntry st = Some st' /\
      screen st' = LOCK "1234" 3 /\
      toast st' = Some "PIN OK" /\
      homeTimers st' = S (homeTimers st) /\
      screen (homeTimeout st') = HOME /\
      run (pinEntry ++ [HomeTimeout]) st = Some (homeTimeout st').
Proof.
  intros [pw sd sc t h k] Hp Hs. simpl in Hp, Hs. subst pw sc.
  split; [reflexivity|].
  exists (mkState true sd (LOCK "1234" 3) (Some "PIN OK") (S h) (4 + k)).
  repeat split.
Qed.

Lemma pin_entry_unlocks_witness :
  exists st',
    run pinEntry (showing (LOCK "" 0)) = Some st' /\
    screen st' = LOCK "1234" 3 /\
    toast st' = Some "PIN OK" /\
    homeTimers st' = S (homeTimers (showing (LOCK "" 0))) /\
    screen (homeTimeout st') = HOME /\
    run (pinEntry ++ [HomeTimeout]) (showing (LOCK "" 0))
      = Some (homeTimeout st').
Proof.
  exact (proj2 (pin_entry_unlocks (showing (LOCK "" 0)) eq_refl eq_refl)).
Defined.

(** C2 (as stated, refuted).  After [stepCount - 1 = 5] further [confirm]s
    the review is at its last step and not approved. *)
Lemma five_confirms_do_not_approve :
  exists st,
    run (navigation (Z.to_nat (stepCount (showing HOME) - 1))) (showing HOME)
      = Some st /\
    screen st = TX_REVIEW (Some eth) 5 None /\
    truthy None = false /\
    forall app step, screen st <> TX_REVIEW app step (Some true).
Proof.
  exists (setScreen (TX_REVIEW (Some eth) 5 None) (showing HOME)).
  repeat split. intros app step H. discriminate H.
Qed.

(** C2 (amended).  From [HOME], powered: [confirm], [right], [confirm],
    [confirm] and then [confirm] repeated [stepCount = 6] times shows, in
    order, [APPS 0], [APPS 1], [ADDRESS apps[1]], [TX_REVIEW] at steps 0
    to 5 and finally [TX_REVIEW] at step 5 with [approved] true. *)
Theorem navigation_reaches_approval :
  forall st, powered st = true -> screen st = HOME ->
    stepCount st = 6 /\
    at_index apps 1 = Some eth /\
    screens (navigation (Z.to_nat (stepCount st))) st =
      [APPS 0; APPS 1; ADDRESS (Some eth);
       TX_REVIEW (Some eth) 0 None; TX_REVIEW (Some eth) 1 None;
       TX_REVIEW (Some eth) 2 None; TX_REVIEW (Some eth) 3 None;
       TX_REVIEW (Some eth) 4 None; TX_REVIEW (Some eth) 5 None;
       TX_REVIEW (Some eth) 5 (Some true)] /\
    run (navigation (Z.to_nat (stepCount st))) st
      = Some (setScreen (TX_REVIEW (Some eth) 5 (Some true)) st).
Proof.
  intros [pw sd sc t h k] Hp Hs. simpl in Hp, Hs. subst pw sc.
  repeat split.
Qed.

Lemma navigation_reaches_approval_witness :
  run (navigation (Z.to_nat (stepCount (showing HOME)))) (showing HOME)
    = Some (setScreen (TX_REVIEW (Some eth) 5 (Some true)) (showing HOME)).
Proof.
  exact (proj2 (proj2 (proj2
           (navigation_reaches_approval (showing HOME) eq_refl eq_refl)))).
Defined.

(** C8.  Powered, on [LOCK] with a pin other than ["1234"]: whenever the
    committed pin has length 4, [confirm] shows the toast "PIN OK" if it
    is ["1234"] and "Wrong PIN" otherwise; the screen is [LOCK] with the
    committed pin and the same cursor; a jump to [HOME] is scheduled only
    for ["1234"], so a wrong pin stays on [LOCK]. *)
Theorem lock_commit_toast :
  forall st pin cursor,
    powered st = true -> screen st = LOCK pin cursor -> pin <> "1234" ->
    String.length (commitPin pin cursor) = 4%nat ->
    exists st',
      confirm st = Some st' /\
      screen st' = LOCK (commitPin pin cursor) cursor /\
      toast st' = Some (if String.eqb (commitPin pin cursor) "1234"
                        then "PIN OK" else "Wrong PIN") /\
      toastTimers st' = S (toastTimers st) /\
      (commitPin pin cursor = "1234" ->
       homeTimers st' = S (homeTimers st)) /\
      (commitPin pin cursor <> "1234" ->
       toast st' = Some "Wrong PIN" /\ homeTimers st' = homeTimers st).
Proof.
  intros st pin cursor Hp Hs Hne Hlen.
  unfold confirm. rewrite Hp, Hs. cbn [negb]. cbv zeta.
  apply String.eqb_neq in Hne. rewrite Hne, Hlen.
  change (4 =? 4)%nat with true. cbv iota.
  destruct (String.eqb_spec (commitPin pin cursor) "1234") as [E | E].
  - eexists. split; [reflexivity|].
    split; [reflexivity|]. split; [reflexivity|]. split; [reflexivity|].
    split; [reflexivity | contradiction].
  - eexists. split; [reflexivity|].
    split; [reflexivity|]. split; [reflexivity|]. split; [reflexivity|].
    split; [contradiction | split; reflexivity].
Qed.

Lemma lock_commit_toast_witness :
  exists st',
    confirm (showing (LOCK "123" 3)) = Some st' /\
    screen st' = LOCK (commitPin "123" 3) 3 /\
    toast st' = Some (if String.eqb (commitPin "123" 3) "1234"
                      then "PIN OK" else "Wrong PIN") /\
    toastTimers st' = S (toastTimers (showing (LOCK "123" 3))) /\
    (commitPin "123" 3 = "1234" ->
     homeTimers st' = S (homeTimers (showing (LOCK "123" 3)))) /\
    (commitPin "123" 3 <> "1234" ->
     toast st' = Some "Wrong PIN" /\
     homeTimers st' = homeTimers (showing (LOCK "123" 3))).
Proof.
  refine (lock_commit_toast (showing (LOCK "123" 3)) "123" 3
            eq_refl eq_refl _ eq_refl).
  discriminate.
Defined.

(** C9.  The settings menu has four entries, labelled "Brightness",
    "About", "Lock" and "Power Off" (or "Power On" when not powered), in
    that order.  Powered, [confirm] on [SETTINGS index] runs the entry at
    [index]: 0 shows the toast "Max", 1 the toast "v1.0 demo", both on the
    same screen; 2 goes to [LOCK] with an empty pin and cursor 0, all
    else unchanged; 3 turns [powered] off: the flag read back is false,
    the screen is still [SETTINGS 3] and all else is unchanged. *)
Theorem settings_menu_actions :
  forall st,
    map label (settingsMenu st) =
      ["Brightness"; "About"; "Lock";
       if powered st then "Power Off" else "Power On"] /\
    menuCount st = 4 /\
    (powered st = true ->
     (screen st = SETTINGS 0 ->
      confirm st = Some (showToast "Max" st) /\
      toast (showToast "Max" st) = Some "Max" /\
      screen (showToast "Max" st) = screen st /\
      powered (showToast "Max" st) = powered st) /\
     (screen st = SETTINGS 1 ->
      confirm st = Some (showToast "v1.0 demo" st) /\
      toast (showToast "v1.0 demo" st) = Some "v1.0 demo" /\
      screen (showToast "v1.0 demo" st) = screen st /\
      powered (showToast "v1.0 demo" st) = powered st) /\
     (screen st = SETTINGS 2 ->
      confirm st = Some (setScreen (LOCK "" 0) st) /\
      exists st',
        confirm st = Some st' /\ screen st' = LOCK "" 0 /\
        sameButScreen st st') /\
     (screen st = SETTINGS 3 ->
      confirm st = Some (setPowered false st) /\
      screen (setPowered false st) = screen st /\
      exists st',
        confirm st = Some st' /\ powered st' = false /\
        screen st' = SETTINGS 3 /\ seed st' = seed st /\
        toast st' = toast st /\ homeTimers st' = homeTimers st /\
        toastTimers st' = toastTimers st)).
Proof.
  intros [pw sd sc t h k]. split; [reflexivity|]. split; [reflexivity|].
  cbn [powered screen]. intros ->. unfold sameButScreen.
  repeat split; try reflexivity; intros; subst sc; try reflexivity;
    eexists; repeat split.
Qed.

Lemma settings_menu_actions_witness :
  confirm (showing (SETTINGS 3))
  = Some (setPowered false (showing (SETTINGS 3))) /\
  screen (setPowered false (showing (SETTINGS 3)))
  = screen (showing (SETTINGS 3)) /\
  exists st',
    confirm (showing (SETTINGS 3)) = Some st' /\ powered st' = false /\
    screen st' = SETTINGS 3 /\ seed st' = seed (showing (SETTINGS 3)) /\
    toast st' = toast (showing (SETTINGS 3)) /\
    homeTimers st' = homeTimers (showing (SETTINGS 3)) /\
    toastTimers st' = toastTimers (showing (SETTINGS 3)).
Proof.
  exact (proj2 (proj2 (proj2 (proj2 (proj2
           (settings_menu_actions (showing (SETTINGS 3)))) eq_refl)))
           eq_refl).
Defined.

(** C10.  The seed is the constant [pseudoHash("demo-seed")], a closed
    term with no input; no transition writes it.  So in every state of
    every session the seed, the address shown for each app and the [to]
    of the mock transaction are the same values. *)
Theorem seed_is_fixed :
  seed init = pseudoHash_default (JS.codes "demo-seed") /\
  seed init = "3de2cd987fa7fc8c3de2cd997fa7fc8b3de2cd9a" /\
  (forall ev st st', step ev st = Some st' -> seed st' = seed st) /\
  (forall evs st, run evs init = Some st ->
     seed st = seed init /\
     shownAddress btc st = "bc1dadb022cd77cf550dadb022dd77cf54fdadb" /\
     shownAddress eth st = "0xf59e5d64d77cc3e6f59e5d65d77cc3e5f59e5d66" /\
     shownAddress sol st = "0a569884d7608b2b0a569885d7608b2a0a569886d760" /\
     to (tx (seed st)) = "0xf59e5d64d77cc3e6f59e5d65d77cc3e5f59e5d66") /\
  (forall evs1 evs2 st1 st2,
     run evs1 init = Some st1 -> run evs2 init = Some st2 ->
     seed st1 = seed st2 /\
     (forall app, shownAddress app st1 = shownAddress app st2) /\
     tx (seed st1) = tx (seed st2)).
Proof.
  split; [reflexivity|]. split; [vm_compute; reflexivity|].
  split; [exact step_seed|]. split.
  - intros evs st H. apply run_seed in H.
    unfold shownAddress. rewrite H.
    repeat split; vm_compute; reflexivity.
  - intros evs1 evs2 st1 st2 H1 H2.
    apply run_seed in H1, H2. unfold shownAddress. rewrite H1, H2.
    repeat split.
Qed.

Lemma seed_is_fixed_witness :
  seed (showing (LOCK "" 0)) = seed init /\
  shownAddress btc (showing (LOCK "" 0))
    = "bc1dadb022cd77cf550dadb022dd77cf54fdadb" /\
  shownAddress eth (showing (LOCK "" 0))
    = "0xf59e5d64d77cc3e6f59e5d65d77cc3e5f59e5d66" /\
  shownAddress sol (showing (LOCK "" 0))
    = "0a569884d7608b2b0a569885d7608b2a0a569886d760" /\
  to (tx (seed (showing (LOCK "" 0))))
    = "0xf59e5d64d77cc3e6f59e5d65d77cc3e5f59e5d66".
Proof.
  exact (proj1 (proj2 (proj2 (proj2 seed_is_fixed)))
           [SplashTimeout] (showing (LOCK "" 0)) eq_refl).
Defined.

(* ------------------------------------------------------------------ *)
(** ** More on the utilities *)

Section MoreStringFacts.

Lemma app_assoc_str (a b c : string) : ((a ++ b) ++ c = a ++ (b ++ c))%string.
Proof. induction a as [|x a IH]; simpl; [reflexivity | now rewrite IH]. Qed.

Lemma app_empty_r (a : string) : (a ++ "")%string = a.
Proof. induction a as [|x a IH]; simpl; [reflexivity | now rewrite IH]. Qed.

Lemma substring_whole (s : string) :
  forall n, (String.length s <= n)%nat -> substring 0 n s = s.
Proof.
  induction s as [|c s IH]; intros n H; simpl in *.
  - now destruct n.
  - destruct n as [|n]; [lia|]. f_equal. apply IH. lia.
Qed.

Lemma substring_app_l (a b : string) :
  forall n, (n <= String.length a)%nat ->
            substring 0 n (a ++ b) = substring 0 n a.
Proof.
  induction a as [|c a IH]; intros n H; simpl in *.
  - assert (n = 0%nat) as -> by lia. now destruct b.
  - destruct n as [|n]; [reflexivity|]. f_equal. apply IH. lia.
Qed.

Lemma substring_twice (s : string) :
  forall n m, (n <= m)%nat ->
              substring 0 n (substring 0 m s) = substring 0 n s.
Proof.
  induction s as [|c s IH]; intros n m H; simpl.
  - destruct m; simpl; reflexivity.
  - destruct m as [|m]; simpl.
    + now assert (n = 0%nat) as -> by lia.
    + destruct n as [|n]; [reflexivity|]. f_equal. apply IH. lia.
Qed.

End MoreStringFacts.

Lemma rounds_length (k : nat) :
  forall h1 h2, String.length (rounds k h1 h2) = (16 * k)%nat.
Proof.
  induction k as [|k IH]; intros h1 h2; simpl rounds; [reflexivity|].
  rewrite !length_app, !hex_length, IH. lia.
Qed.

Lemma rounds_more (k : nat) :
  forall j h1 h2, exists rest,
    rounds (k + j) h1 h2 = (rounds k h1 h2 ++ rest)%string.
Proof.
  induction k as [|k IH]; intros j h1 h2; simpl.
  - eexists. reflexivity.
  - destruct (IH j (h1 + 1) (h2 - 1)) as [rest E]. exists rest.
    rewrite E. now rewrite !app_assoc_str.
Qed.

(** The loop appends whole rounds, and as many as [len] needs. *)
Lemma fill_rounds (fuel : nat) :
  forall out h1 h2 len, exists k,
    fill fuel out h1 h2 len = (out ++ rounds k h1 h2)%string /\
    ((len <= String.length out + 16 * fuel)%nat ->
     (len <= String.length out + 16 * k)%nat).
Proof.
  induction fuel as [|f IH]; intros out h1 h2 len; simpl.
  - exists 0%nat. simpl. rewrite app_empty_r.
    destruct (Nat.ltb_spec (String.length out) len); split; auto; lia.
  - destruct (Nat.ltb_spec (String.length out) len).
    + destruct (IH (out ++ hex h1 ++ hex h2)%string (h1 + 1) (h2 - 1) len)
        as [k [E B]].
      exists (S k). split.
      * rewrite E. simpl. now rewrite !app_assoc_str.
      * intros Hf. rewrite !length_app, !hex_length in B. lia.
    + exists 0%nat. simpl. rewrite app_empty_r. split; auto; lia.
Qed.

Lemma substring_rounds (n k k' : nat) (h1 h2 : Z) :
  (n <= 16 * k)%nat -> (n <= 16 * k')%nat ->
  substring 0 n (rounds k h1 h2) = substring 0 n (rounds k' h1 h2).
Proof.
  assert (forall a b, (n <= 16 * a)%nat -> (a <= b)%nat ->
            substring 0 n (rounds a h1 h2) = substring 0 n (rounds b h1 h2))
    as G.
  { intros a b Ha Hab.
    destruct (rounds_more a (b - a) h1 h2) as [rest E].
    replace (a + (b - a))%nat with b in E by lia. rewrite E.
    symmetry. apply substring_app_l. rewrite rounds_length. exact Ha. }
  intros Hk Hk'. destruct (Nat.le_ge_cases k k').
  - now apply G.
  - symmetry. now apply G.
Qed.

Lemma pseudoHash_rounds (input : list Z) (len k : nat) :
  (len <= 16 * k)%nat ->
  pseudoHash input len
  = JS.sliceTo len (rounds k (fst (mixAll input)) (snd (mixAll input))).
Proof.
  intros H. unfold pseudoHash, JS.sliceTo.
  destruct (mixAll input) as [h1 h2]. simpl fst. simpl snd.
  destruct (fill_rounds len "" h1 h2 len) as [j [E B]].
  rewrite E. simpl append. apply substring_rounds; [|exact H].
  simpl in B. lia.
Qed.

(** X1.  [clamp] with a non-empty range [lo <= hi] lands in the range,
    leaves a value already in the range alone, sends what is below to [lo]
    and what is above to [hi], and clamping twice is clamping once. *)
Theorem clamp_spec (n lo hi : Z) :
  lo <= hi ->
  lo <= clamp n lo hi <= hi /\
  (lo <= n <= hi -> clamp n lo hi = n) /\
  (n <= lo -> clamp n lo hi = lo) /\
  (hi <= n -> clamp n lo hi = hi) /\
  clamp (clamp n lo hi) lo hi = clamp n lo hi.
Proof. unfold clamp. lia. Qed.

Lemma clamp_spec_witness :
  0 <= clamp 7 0 2 <= 2 /\
  (0 <= 7 <= 2 -> clamp 7 0 2 = 7) /\
  (7 <= 0 -> clamp 7 0 2 = 0) /\
  (2 <= 7 -> clamp 7 0 2 = 2) /\
  clamp (clamp 7 0 2) 0 2 = clamp 7 0 2.
Proof. apply (clamp_spec 7 0 2). lia. Defined.

(** X2.  With an empty range ([hi < lo], as [0 .. length - 1] is for an
    empty array) [clamp] returns [lo] for every [n]: the outer [Math.max]
    wins, and the result is above [hi]. *)
Theorem clamp_empty_range (n lo hi : Z) :
  hi < lo -> clamp n lo hi = lo /\ hi < clamp n lo hi.
Proof. unfold clamp. lia. Qed.

Lemma clamp_empty_range_witness :
  clamp 5 0 (-1) = 0 /\ -1 < clamp 5 0 (-1).
Proof. apply (clamp_empty_range 5 0 (-1)). lia. Defined.

(** X3.  [pseudoHash(input, len)] returns exactly [len] characters for
    every input and every [len]; in particular the empty string for
    [len = 0], and 40 characters when [len] is left out. *)
Theorem pseudoHash_returns_len :
  (forall input len, String.length (pseudoHash input len) = len) /\
  (forall input, pseudoHash input 0 = "") /\
  (forall input, String.length (pseudoHash_default input) = 40%nat).
Proof.
  repeat split; intros.
  - apply pseudoHash_length.
  - pose proof (pseudoHash_length input 0) as H.
    destruct (pseudoHash input 0); [reflexivity | discriminate H].
  - apply pseudoHash_length.
Qed.

(** X4.  A shorter hash is the beginning of a longer one of the same
    input: asking for [n <= m] characters gives the first [n] of the [m]. *)
Theorem pseudoHash_prefix (input : list Z) (n m : nat) :
  (n <= m)%nat -> pseudoHash input n = JS.sliceTo n (pseudoHash input m).
Proof.
  intros H.
  rewrite (pseudoHash_rounds input n m) by lia.
  rewrite (pseudoHash_rounds input m m) by lia.
  unfold JS.sliceTo. symmetry. now apply substring_twice.
Qed.

Lemma pseudoHash_prefix_witness :
  pseudoHash (JS.codes "demo-seed") 36
  = JS.sliceTo 36 (pseudoHash (JS.codes "demo-seed") 40).
Proof. apply (pseudoHash_prefix (JS.codes "demo-seed") 36 40). lia. Defined.

(** X5.  The output of [pseudoHash] is the beginning of the text
    [hex(h1) hex(h2) hex(h1+1) hex(h2-1) ...] built from the two
    accumulators the mixing loop ends with: any number [k] of rounds that
    covers [len] gives the same first [len] characters. *)
Theorem pseudoHash_stream (input : list Z) (len k : nat) :
  (len <= 16 * k)%nat ->
  pseudoHash input len
  = JS.sliceTo len (rounds k (fst (mixAll input)) (snd (mixAll input))).
Proof. apply pseudoHash_rounds. Qed.

Lemma pseudoHash_stream_witness :
  pseudoHash [] 20
  = JS.sliceTo 20 (rounds 2 (fst (mixAll [])) (snd (mixAll []))).
Proof. apply (pseudoHash_stream [] 20 2). lia. Defined.

Lemma toUint32_range (z : Z) : 0 <= JS.toUint32 z < 2 ^ 32.
Proof. unfold JS.toUint32. apply Z.mod_pos_bound. lia. Qed.

(** X6.  After any input both accumulators of the mixing loop are
    unsigned 32-bit integers. *)
Theorem mixAll_uint32 (input : list Z) :
  0 <= fst (mixAll input) < 2 ^ 32 /\ 0 <= snd (mixAll input) < 2 ^ 32.
Proof.
  unfold mixAll.
  assert (forall l hs,
            (0 <= fst hs < 2 ^ 32 /\ 0 <= snd hs < 2 ^ 32) ->
            0 <= fst (fold_left mix l hs) < 2 ^ 32 /\
            0 <= snd (fold_left mix l hs) < 2 ^ 32) as G.
  { induction l as [|c l IH]; intros hs H; simpl; [exact H|].
    apply IH. destruct hs as [h1 h2]. unfold mix, JS.ushr0. simpl.
    split; apply toUint32_range. }
  apply G. simpl. lia.
Qed.

(** X7.  Up to 16 characters of hash are always hexadecimal digits
    (the first round prints the accumulators themselves); more are, as
    long as the countdown [h2--] does not pass zero within the rounds
    that [len] needs. *)
Theorem pseudoHash_hex_when (input : list Z) (len : nat) :
  ((len <= 16)%nat -> allChars isHexChar (pseudoHash input len) = true) /\
  (Z.of_nat len <= 16 * (snd (mixAll input) + 1) ->
   allChars isHexChar (pseudoHash input len) = true).
Proof.
  split; intros H; apply pseudoHash_hex; [|exact H].
  pose proof (mixAll_nonneg input). lia.
Qed.

Lemma pseudoHash_hex_when_witness :
  allChars isHexChar
    (pseudoHash (JS.codes "dB7H-zq" ++ JS.codes ":btc") 16) = true.
Proof.
  apply (proj1 (pseudoHash_hex_when
                  (JS.codes "dB7H-zq" ++ JS.codes ":btc") 16)).
  lia.
Defined.

(** X8.  [hex] returns 8 characters for every integer, negative or
    beyond 32 bits included; for a non-negative one they are all
    hexadecimal digits. *)
Theorem hex_eight_chars (h : Z) :
  String.length (hex h) = 8%nat /\
  (0 <= h -> allChars isHexChar (hex h) = true).
Proof. split; [apply hex_length | apply hex_ok]. Qed.

Lemma hex_eight_chars_witness :
  String.length (hex (2 ^ 32 + 5)) = 8%nat /\
  allChars isHexChar (hex (2 ^ 32 + 5)) = true.
Proof.
  split.
  - exact (proj1 (hex_eight_chars (2 ^ 32 + 5))).
  - apply (proj2 (hex_eight_chars (2 ^ 32 + 5))). lia.
Defined.

(** X9.  For every seed the three catalogue addresses have their shape:
    ["bc1"] and 36 more characters, ["0x"] and 40 more, 44 characters
    with no prefix. *)
Theorem address_prefix_and_length (seed : list Z) :
  (exists g, address btc seed = ("bc1" ++ g)%string /\
             String.length g = 36%nat) /\
  (exists g, address eth seed = ("0x" ++ g)%string /\
             String.length g = 40%nat) /\
  String.length (address sol seed) = 44%nat.
Proof.
  destruct (address_shape seed) as [B [E [_ [_ [_ S]]]]]. auto.
Qed.

(** X10.  The [slice(0, 42)] of the mock transaction never cuts: for
    every seed [tx.to] is the whole ETH-style address, 42 characters. *)
Theorem tx_to_is_eth_address (seed : string) :
  to (tx seed) = address eth (JS.codes seed) /\
  String.length (to (tx seed)) = 42%nat.
Proof.
  destruct (address_shape (JS.codes seed)) as [_ [_ [_ [_ [E _]]]]].
  assert (to (tx seed) = address eth (JS.codes seed)) as H.
  { unfold tx, to, JS.sliceTo. change (nth 1 apps eth) with eth.
    apply substring_whole. rewrite E. lia. }
  split; [exact H | now rewrite H].
Qed.

(** X11.  [shorten] of the empty string is empty, with no ellipsis; and an
    address no longer than both [prefix] and [suffix] is not shortened but
    printed twice, once on each side of the ellipsis. *)
Theorem shorten_short_input :
  (forall prefix suffix, shorten "" prefix suffix = "") /\
  (forall addr prefix suffix,
     addr <> "" ->
     (String.length addr <= prefix)%nat ->
     (String.length addr <= suffix)%nat ->
     shorten addr prefix suffix = (addr ++ ellipsis ++ addr)%string).
Proof.
  split; [reflexivity|].
  intros addr prefix suffix Hne Hp Hs.
  unfold shorten, JS.sliceTo, JS.sliceLast.
  destruct addr as [|c addr]; [contradiction|].
  destruct suffix as [|suffix]; [simpl in Hs; lia|].
  replace (String.length (String c addr) - S suffix)%nat with 0%nat by lia.
  now rewrite !substring_whole by assumption.
Qed.

Lemma shorten_short_input_witness :
  shorten "abc" 6 6 = ("abc" ++ ellipsis ++ "abc")%string.
Proof.
  apply (proj2 shorten_short_input "abc" 6%nat 6%nat);
    [discriminate | simpl; lia | simpl; lia].
Defined.

(* ------------------------------------------------------------------ *)
(** ** The PIN slots *)

Section PinFacts.

Lemma las_app (a b : string) :
  list_ascii_of_string (a ++ b)
  = (list_ascii_of_string a ++ list_ascii_of_string b)%list.
Proof. induction a as [|c a IH]; simpl; [reflexivity | now rewrite IH]. Qed.

Lemma las_replicate (n : nat) (c : ascii) :
  list_ascii_of_string (JS.replicate n c) = repeat c n.
Proof. induction n as [|n IH]; simpl; [reflexivity | now rewrite IH]. Qed.

Lemma las_length (s : string) :
  List.length (list_ascii_of_string s) = String.length s.
Proof. induction s as [|c s IH]; simpl; [reflexivity | now rewrite IH]. Qed.

Lemma sola_app (a b : list ascii) :
  string_of_list_ascii (a ++ b)
  = (string_of_list_ascii a ++ string_of_list_ascii b)%string.
Proof. induction a as [|c a IH]; simpl; [reflexivity | now rewrite IH]. Qed.

Lemma allChars_forallb (p : ascii -> bool) (s : string) :
  allChars p s = forallb p (list_ascii_of_string s).
Proof. induction s as [|c s IH]; simpl; [reflexivity | now rewrite IH]. Qed.

Lemma allChars_impl (p q : ascii -> bool) (s : string) :
  (forall c, p c = true -> q c = true) ->
  allChars p s = true -> allChars q s = true.
Proof.
  intros I. induction s as [|c s IH]; simpl; [reflexivity|].
  intros H. apply andb_true_iff in H as [Hc Hs].
  now rewrite (I c Hc), IH.
Qed.

Lemma digit_keep (c : ascii) : isDigitChar c = true -> keep c = true.
Proof.
  destruct c as [[] [] [] [] [] [] [] []]; intros H;
    try discriminate H; reflexivity.
Qed.

Lemma digitChar_digit (m : Z) :
  0 <= m < 10 -> isDigitChar (digitChar m) = true.
Proof.
  intros R.
  assert (m = 0 \/ m = 1 \/ m = 2 \/ m = 3 \/ m = 4 \/ m = 5 \/ m = 6 \/
          m = 7 \/ m = 8 \/ m = 9) as D by lia.
  repeat (destruct D as [-> | D]; [reflexivity|]). now subst.
Qed.

Lemma filter_keep_id (l : list ascii) :
  forallb keep l = true -> filter keep l = l.
Proof.
  induction l as [|c l IH]; simpl; [reflexivity|].
  intros H. apply andb_true_iff in H as [Hc Hl]. now rewrite Hc, IH.
Qed.

Lemma filter_keep_pad (k : nat) : filter keep (repeat "_"%char k) = [].
Proof. induction k as [|k IH]; simpl; [reflexivity | exact IH]. Qed.

Lemma split_at (l1 r : list ascii) (ch : ascii) :
  firstn (List.length l1) (l1 ++ ch :: r) = l1 /\
  skipn (S (List.length l1)) (l1 ++ ch :: r) = r /\
  nth_error (l1 ++ ch :: r) (List.length l1) = Some ch.
Proof.
  induction l1 as [|x l1 [IH1 [IH2 IH3]]]; simpl; [auto|].
  rewrite IH1. auto.
Qed.

Lemma assign_at (l1 r : list ascii) (ch d : ascii) :
  assign (l1 ++ ch :: r) (Z.of_nat (List.length l1)) d = (l1 ++ d :: r)%list /\
  at_index (l1 ++ ch :: r) (Z.of_nat (List.length l1)) = Some ch.
Proof.
  unfold assign, at_index, len.
  destruct (Z.ltb_spec (Z.of_nat (List.length l1)) 0); [lia|].
  rewrite Nat2Z.id.
  destruct (Z.ltb_spec (Z.of_nat (List.length l1))
              (Z.of_nat (List.length (l1 ++ ch :: r)))) as [_ | H1].
  2:{ rewrite List.length_app in H1. simpl in H1. lia. }
  destruct (split_at l1 r ch) as [E1 [E2 E3]].
  now rewrite E1, E2, E3.
Qed.

Lemma assign_past (l : list ascii) (i : Z) (d : ascii) :
  len l <= i ->
  assign l i d = (l ++ [d])%list /\ at_index l i = None.
Proof.
  intros H. unfold assign, at_index, len in *.
  destruct (Z.ltb_spec i 0); [lia|].
  destruct (Z.ltb_spec i (Z.of_nat (List.length l))); [lia|].
  split; [reflexivity|]. apply nth_error_None. lia.
Qed.

Lemma commitPin_unfold (pin : string) (cursor : Z) :
  let next :=
    (list_ascii_of_string pin
       ++ repeat "_"%char (4 - String.length pin))%list in
  commitPin pin cursor =
  string_of_list_ascii
    (filter keep
       (assign next cursor
          (digitChar ((numberOr0 (at_index next cursor) + 1) mod 10)))).
Proof.
  unfold commitPin, JS.padEnd. cbv zeta.
  now rewrite las_app, las_replicate.
Qed.

(** Inside the digits entered: the slot is replaced, the rest kept. *)
Lemma commitPin_inside (a b : string) (ch : ascii) :
  allChars keep a = true -> allChars keep b = true ->
  commitPin (a ++ String ch b) (Z.of_nat (String.length a))
  = (a ++ String (digitChar ((numberOr0 (Some ch) + 1) mod 10)) b)%string.
Proof.
  intros Ha Hb. rewrite commitPin_unfold. cbv zeta.
  generalize (4 - String.length (a ++ String ch b))%nat as k. intros k.
  rewrite las_app.
  change (list_ascii_of_string (String ch b))
    with (ch :: list_ascii_of_string b).
  rewrite <- app_assoc, <- (las_length a).
  change ((ch :: list_ascii_of_string b) ++ repeat "_"%char k)%list
    with (ch :: (list_ascii_of_string b ++ repeat "_"%char k))%list.
  destruct (assign_at (list_ascii_of_string a)
              (list_ascii_of_string b ++ repeat "_"%char k)%list
              ch (digitChar ((numberOr0 (Some ch) + 1) mod 10))) as [E1 E2].
  rewrite E2, E1.
  rewrite filter_app. cbn [filter].
  assert (keep (digitChar ((numberOr0 (Some ch) + 1) mod 10)) = true) as K
    by (apply digit_keep, digitChar_digit, Z.mod_pos_bound; lia).
  rewrite K, filter_app, filter_keep_pad, app_nil_r.
  rewrite !filter_keep_id by (rewrite <- allChars_forallb; assumption).
  rewrite sola_app. simpl. now rewrite !string_of_list_ascii_of_string.
Qed.

(** At or past the end of the digits entered: a 1 is appended. *)
Lemma commitPin_outside (pin : string) (cursor : Z) :
  allChars keep pin = true ->
  Z.of_nat (String.length pin) <= cursor ->
  commitPin pin cursor = (pin ++ "1")%string.
Proof.
  intros Hp Hc. rewrite commitPin_unfold. cbv zeta.
  set (l := list_ascii_of_string pin).
  set (n := String.length pin) in *.
  assert (List.length l = n) as Ln by apply las_length.
  assert (filter keep l = l) as Fl
    by (apply filter_keep_id; unfold l; now rewrite <- allChars_forallb).
  assert (string_of_list_ascii (l ++ ["1"%char]) = (pin ++ "1")%string) as R
    by (rewrite sola_app; unfold l;
        now rewrite string_of_list_ascii_of_string).
  destruct (Z.ltb_spec cursor 4) as [Hlt | Hge].
  - (* a placeholder slot *)
    set (c := Z.to_nat cursor).
    assert (repeat "_"%char (4 - n)
            = (repeat "_"%char (c - n) ++ "_"%char :: repeat "_"%char (3 - c))%list)
      as Er.
    { replace (4 - n)%nat with ((c - n) + S (3 - c))%nat by lia.
      now rewrite repeat_app. }
    rewrite Er, app_assoc.
    replace cursor
      with (Z.of_nat (List.length (l ++ repeat "_"%char (c - n))%list))
      by (rewrite List.length_app, repeat_length; lia).
    destruct (assign_at (l ++ repeat "_"%char (c - n))%list
                (repeat "_"%char (3 - c)) "_"%char
                (digitChar ((numberOr0 (Some "_"%char) + 1) mod 10)))
      as [E1 E2].
    rewrite E2, E1.
    rewrite !filter_app, Fl. cbn [filter].
    rewrite !filter_keep_pad, app_nil_r. exact R.
  - (* past the four slots *)
    destruct (assign_past (l ++ repeat "_"%char (4 - n))%list cursor
                (digitChar ((numberOr0 None + 1) mod 10))) as [E1 E2].
    { unfold len. rewrite List.length_app, repeat_length. lia. }
    rewrite E2, E1.
    rewrite !filter_app, Fl, filter_keep_pad, app_nil_r. exact R.
Qed.

End PinFacts.


Lemma string_split_at (s : string) :
  forall n, (n < String.length s)%nat ->
    exists a ch b, s = (a ++ String ch b)%string /\ String.length a = n.
Proof.
  induction s as [|c s IH]; intros n H; simpl in H; [lia|].
  destruct n as [|n].
  - exists ""%string, c, s. auto.
  - destruct (IH n) as [a [ch [b [E L]]]]; [lia|].
    exists (String c a), ch, b. simpl. now rewrite <- E, L.
Qed.



(** X13.  With the cursor at or past the end of the digits entered,
    [confirm] commits the pin with a 1 appended: the placeholders before
    the cursor are stripped, so the new digit takes the first free slot,
    wherever the cursor is. *)
Theorem commitPin_appends_one (pin : string) (cursor : Z) :
  allChars keep pin = true ->
  Z.of_nat (String.length pin) <= cursor ->
  commitPin pin cursor = (pin ++ "1")%string.
Proof. apply commitPin_outside. Qed.

Lemma commitPin_appends_one_witness : commitPin "7" 3 = ("7" ++ "1")%string.
Proof. apply (commitPin_appends_one "7" 3); [reflexivity | simpl; lia]. Defined.




Lemma commitPin_wellFormed (pin : string) (cursor : Z) :
  allChars isDigitChar pin = true -> (String.length pin <= 4)%nat ->
  0 <= cursor <= 3 ->
  allChars isDigitChar (commitPin pin cursor) = true /\
  (String.length (commitPin pin cursor) <= 4)%nat /\
  (String.length pin <= String.length (commitPin pin cursor))%nat.
Proof.
  intros Hd Hl Hc.
  destruct (Z.ltb_spec cursor (Z.of_nat (String.length pin))) as [Hin | Hout].
  - destruct (string_split_at pin (Z.to_nat cursor)) as [a [ch [b [E L]]]];
      [lia|].
    subst pin. rewrite allChars_app in Hd. simpl in Hd.
    apply andb_true_iff in Hd as [Ha Hb].
    apply andb_true_iff in Hb as [_ Hb].
    replace cursor with (Z.of_nat (String.length a)) by lia.
    rewrite commitPin_inside
      by (eapply allChars_impl; [apply digit_keep | assumption]).
    rewrite allChars_app. simpl. rewrite Ha, Hb, digitChar_digit.
    + rewrite !length_app in *. simpl in *. auto.
    + apply Z.mod_pos_bound. lia.
  - rewrite commitPin_outside;
      [| eapply allChars_impl; [apply digit_keep | assumption] | assumption].
    rewrite allChars_app, Hd, length_app. simpl. split; [reflexivity | lia].
Qed.

(* ------------------------------------------------------------------ *)
(** ** Invariants of the reachable states *)

Lemma apps_entry (index : Z) :
  0 <= index <= 2 -> exists a, at_index apps index = Some a /\ In a apps.
Proof.
  intros H.
  assert (index = 0 \/ index = 1 \/ index = 2) as D by lia.
  destruct D as [-> | [-> | ->]]; eexists; (split; [reflexivity|]);
    simpl; auto.
Qed.

Lemma step_wellFormed (ev : Event) (st st' : DeviceState) :
  inRange (screen st) -> wellFormed (screen st) ->
  step ev st = Some st' -> wellFormed (screen st').
Proof.
  intros Hin Hwf Hstep. destruct ev; simpl in Hstep.
  - injection Hstep as <-. unfold left. destruct (negb (powered st)); auto.
    destruct st as [pw sd [] t h k]; simpl in *; auto.
  - injection Hstep as <-. unfold right. destruct (negb (powered st)); auto.
    destruct st as [pw sd [] t h k]; simpl in *; auto.
  - unfold confirm in Hstep. destruct (negb (powered st)).
    { now injection Hstep as <-. }
    destruct (screen st) eqn:E; simpl in Hin, Hwf.
    + injection Hstep as <-. now rewrite E.
    + destruct Hwf as [Hd Hl].
      destruct (commitPin_wellFormed pin cursor Hd Hl Hin) as [Cd [Cl _]].
      repeat break_if; injection Hstep as <-; simpl; auto.
    + now injection Hstep as <-.
    + injection Hstep as <-. simpl. now apply apps_entry.
    + now injection Hstep as <-.
    + break_if; now injection Hstep as <-.
    + destruct (menu_entry st index Hin) as [e [He Hs]].
      rewrite He in Hstep. injection Hstep as <-.
      destruct Hs as [-> | ->]; [now rewrite E | simpl; split; [auto | lia]].
  - injection Hstep as <-. unfold back. destruct (negb (powered st)); auto.
    destruct st as [pw sd [] t h k]; simpl in *; auto.
  - now injection Hstep as <-.
  - now injection Hstep as <-.
  - injection Hstep as <-. unfold splashTimeout.
    destruct st as [pw sd [] t h k]; simpl in *; auto.
    split; [auto | lia].
  - injection Hstep as <-. unfold homeTimeout.
    destruct (homeTimers st); simpl; auto.
  - injection Hstep as <-. unfold toastTimeout.
    destruct (toastTimers st); simpl; auto.
Qed.

Lemma run_wellFormed (evs : list Event) :
  forall st st',
    inRange (screen st) -> wellFormed (screen st) ->
    run evs st = Some st' ->
    inRange (screen st') /\ wellFormed (screen st').
Proof.
  induction evs as [|ev evs IH]; intros st st' Hin Hwf H; simpl in H.
  - injection H as <-. auto.
  - destruct (step ev st) as [st1|] eqn:E; [|discriminate].
    apply (IH st1); auto.
    + eapply step_inRange; eauto.
    + eapply step_wellFormed; eauto.
Qed.

Lemma reachable_ok (evs : list Event) (st : DeviceState) :
  run evs init = Some st -> inRange (screen st) /\ wellFormed (screen st).
Proof. apply run_wellFormed; exact I. Qed.

Lemma reachable_pin_is_digits_aux (evs : list Event) (st : DeviceState)
      (pin : string) (cursor : Z) :
  run evs init = Some st -> screen st = LOCK pin cursor ->
  allChars isDigitChar pin = true /\ (String.length pin <= 4)%nat.
Proof.
  intros H E. apply reachable_ok in H as [_ W]. now rewrite E in W.
Qed.

(** X15.  In every [LOCK] state the session can reach, the pin is at most
    four characters, all decimal digits. *)
Theorem reachable_pin_is_digits (evs : list Event) (st : DeviceState)
        (pin : string) (cursor : Z) :
  run evs init = Some st -> screen st = LOCK pin cursor ->
  allChars isDigitChar pin = true /\ (String.length pin <= 4)%nat.
Proof. apply reachable_pin_is_digits_aux. Qed.

Lemma reachable_pin_is_digits_witness :
  allChars isDigitChar "1111" = true /\ (String.length "1111" <= 4)%nat.
Proof.
  exact (reachable_pin_is_digits (SplashTimeout :: oneConfirmPerSlot)
           (mkState true (seed init) (LOCK "1111" 3) (Some "Wrong PIN") 0 1)
           "1111" 3 eq_refl eq_refl).
Defined.

(** X16.  No event takes a digit back: whenever one step leads from a
    [LOCK] screen to a [LOCK] screen, the pin is at least as long as
    before.  (Pin digits and cursor as in the reachable states.) *)
Theorem pin_never_shrinks (ev : Event) (st st' : DeviceState)
        (pin pin' : string) (cursor cursor' : Z) :
  allChars isDigitChar pin = true -> (String.length pin <= 4)%nat ->
  0 <= cursor <= 3 ->
  screen st = LOCK pin cursor -> step ev st = Some st' ->
  screen st' = LOCK pin' cursor' ->
  (String.length pin <= String.length pin')%nat.
Proof.
  intros Hd Hl Hc E Hstep E'.
  destruct (commitPin_wellFormed pin cursor Hd Hl Hc) as [_ [_ Hm]].
  destruct st as [pw sd sc t [|h] [|k]]; simpl in E; subst sc;
  destruct ev; simpl in Hstep;
    unfold left, right, confirm, back, togglePower, openSettings,
           splashTimeout, homeTimeout, toastTimeout in Hstep;
    simpl in Hstep;
    repeat break_if; injection Hstep as <-; simpl in E';
    try discriminate E'; injection E' as <- <-; auto.
Qed.

Lemma pin_never_shrinks_witness :
  (String.length "12" <= String.length "13")%nat.
Proof.
  refine (pin_never_shrinks Confirm (showing (LOCK "12" 1)) _ "12" "13" 1 1
            eq_refl _ _ eq_refl eq_refl eq_refl); simpl; lia.
Defined.

(* ------------------------------------------------------------------ *)
(** ** Rendering *)

Lemma steps_entry (sd : string) (step : Z) :
  0 <= step <= 5 -> exists s, at_index (txSteps (tx sd)) step = Some s.
Proof.
  intros H.
  assert (step = 0 \/ step = 1 \/ step = 2 \/ step = 3 \/ step = 4 \/
          step = 5) as D by lia.
  destruct D as [-> | [-> | [-> | [-> | [-> | ->]]]]]; eexists; reflexivity.
Qed.

Lemma at_index_outside {A} (a : list A) (i : Z) :
  i < 0 \/ len a <= i -> at_index a i = None.
Proof.
  unfold at_index, len. intros [H | H].
  - destruct (Z.ltb_spec i 0); [reflexivity | lia].
  - destruct (Z.ltb_spec i 0); [reflexivity|]. apply nth_error_None. lia.
Qed.

Lemma render_ok (st : DeviceState) :
  inRange (screen st) -> wellFormed (screen st) ->
  exists v, render st = Some v.
Proof.
  intros Hin Hwf. unfold render. destruct (negb (powered st)); eauto.
  destruct (screen st) eqn:E; simpl in Hin, Hwf; eauto.
  - destruct (apps_entry index Hin) as [a [-> _]]. eauto.
  - destruct Hwf as [a [-> _]]. eauto.
  - destruct (truthy approved); eauto.
    destruct (steps_entry (seed st) step0 Hin) as [s ->]. eauto.
  - destruct (menu_entry st index Hin) as [e [-> _]]. eauto.
Qed.

(** X17.  Whatever the sequence of events, the session has a state and
    the renderers can draw it: none of the unguarded reads
    [apps[index].name], [app.address(seed)], [steps[step].title],
    [menu[index].label] meets [undefined], and an [ADDRESS] or [TX_REVIEW]
    screen always carries an app of the catalogue.  The reads are not
    safe by themselves: with the index outside the array the renderer
    throws. *)
Theorem render_never_throws :
  (forall evs, exists st v, run evs init = Some st /\ render st = Some v) /\
  (forall evs st app,
     run evs init = Some st ->
     (screen st = ADDRESS app \/
      exists step approved, screen st = TX_REVIEW app step approved) ->
     exists a, app = Some a /\ In a apps) /\
  (forall st index,
     powered st = true -> index < 0 \/ 2 < index ->
     screen st = APPS index -> render st = None).
Proof.
  split; [|split].
  - intros evs. destruct (run_inRange evs init I) as [st [H Hin]].
    destruct (reachable_ok evs st H) as [_ Hwf].
    destruct (render_ok st Hin Hwf) as [v Hv]. eauto.
  - intros evs st app H Hs. apply reachable_ok in H as [_ W].
    destruct Hs as [E | [step0 [approved E]]]; now rewrite E in W.
  - intros st index Hp Hi E. unfold render. rewrite Hp, E. cbn [negb].
    rewrite at_index_outside; [reflexivity|].
    change (len apps) with 3. lia.
Qed.

Lemma render_never_throws_witness :
  exists a, Some eth = Some a /\ In a apps.
Proof.
  refine (proj1 (proj2 render_never_throws)
            [SplashTimeout; OpenSettings; Back; Confirm; Right; Confirm]
            (showing (ADDRESS (Some eth))) (Some eth) eq_refl
            (or_introl eq_refl)).
Defined.

Lemma lockSlots_texts (ds : list ascii) :
  forall i cursor,
    map fst (lockSlots ds i cursor)
    = map (fun d => if isPlaceholder d then bullet else String d EmptyString)
          ds.
Proof.
  induction ds as [|d ds IH]; intros i cursor; simpl; [reflexivity|].
  now rewrite IH.
Qed.

Lemma lockSlots_marks (ds : list ascii) :
  forall i cursor,
    map snd (lockSlots ds i cursor)
    = map (fun j => i + Z.of_nat j =? cursor) (seq 0 (List.length ds)).
Proof.
  induction ds as [|d ds IH]; intros i cursor; simpl; [reflexivity|].
  rewrite IH, Z.add_0_r. f_equal.
  rewrite <- seq_shift, map_map. apply map_ext. intros j.
  f_equal. lia.
Qed.

(** X18.  A powered [LOCK] screen the session can reach always draws
    four slots: the digits entered so far, in order, then a dot for every
    slot still unset; the highlighted slot is the one numbered [cursor]. *)
Theorem lock_view_four_slots (evs : list Event) (st : DeviceState)
        (pin : string) (cursor : Z) :
  run evs init = Some st -> powered st = true ->
  screen st = LOCK pin cursor ->
  exists slots,
    render st = Some (LockView slots) /\
    List.length slots = 4%nat /\
    map fst slots
    = (map (fun d => String d EmptyString) (list_ascii_of_string pin)
         ++ repeat bullet (4 - String.length pin))%list /\
    map snd slots = map (fun j => j =? cursor) [0; 1; 2; 3].
Proof.
  intros H Hp E.
  destruct (reachable_pin_is_digits_aux evs st pin cursor H E) as [Hd Hl].
  unfold render. rewrite Hp, E. cbn [negb]. eexists. split; [reflexivity|].
  assert (List.length (list_ascii_of_string (JS.padEnd 4 "_" pin)) = 4%nat)
    as L4.
  { rewrite las_length. unfold JS.padEnd. rewrite length_app.
    rewrite <- (las_length (JS.replicate _ _)), las_replicate, repeat_length.
    lia. }
  split; [|split].
  - rewrite <- (length_map snd), lockSlots_marks, length_map, length_seq.
    exact L4.
  - rewrite lockSlots_texts. unfold JS.padEnd.
    rewrite las_app, las_replicate, map_app. f_equal.
    + apply map_ext_in. intros d Hin.
      assert (keep d = true) as K.
      { apply digit_keep.
        rewrite allChars_forallb in Hd.
        rewrite forallb_forall in Hd. now apply Hd. }
      unfold keep in K. now destruct (isPlaceholder d).
    + now rewrite map_repeat.
  - rewrite lockSlots_marks, L4. reflexivity.
Qed.

Lemma lock_view_four_slots_witness :
  exists slots,
    render (showing (LOCK "12" 3)) = Some (LockView slots) /\
    List.length slots = 4%nat /\
    map fst slots
    = (map (fun d => String d EmptyString) (list_ascii_of_string "12")
         ++ repeat bullet (4 - String.length "12"))%list /\
    map snd slots = map (fun j => j =? 3) [0; 1; 2; 3].
Proof.
  exact (lock_view_four_slots
           [SplashTimeout; Confirm; Right; Confirm; Confirm; Right; Right]
           (showing (LOCK "12" 3)) "12" 3 eq_refl eq_refl eq_refl).
Defined.

(* ------------------------------------------------------------------ *)
(** ** The lock *)

Lemma locked_step_lock (ev : Event) (pw : bool) (sd pin : string)
      (cursor : Z) (t : option string) (k : nat) (st' : DeviceState) :
  ev <> OpenSettings ->
  (forall c, LOCK pin cursor <> LOCK "1234" c) ->
  step ev (mkState pw sd (LOCK pin cursor) t 0 k) = Some st' ->
  (exists c, screen st' = LOCK "1234" c) \/
  (locked (screen st') = true /\ homeTimers st' = 0%nat /\
   forall c, screen st' <> LOCK "1234" c).
Proof.
  intros Hev Hn Hstep.
  assert (String.eqb pin "1234" = false) as Epin.
  { apply String.eqb_neq. intros ->. now apply (Hn cursor). }
  assert (forall p c c',
            String.eqb p "1234" = false -> LOCK p c <> LOCK "1234" c')
    as Hne.
  { intros p c c' Ep E. injection E as -> _.
    rewrite String.eqb_refl in Ep. discriminate. }
  destruct ev; try contradiction; simpl in Hstep.
  - unfold left in Hstep. destruct pw; simpl in Hstep;
      injection Hstep as <-; right; simpl; auto.
  - unfold right in Hstep. destruct pw; simpl in Hstep;
      injection Hstep as <-; right; simpl; auto.
  - unfold confirm in Hstep. destruct pw; simpl in Hstep.
    + rewrite Epin in Hstep.
      destruct (String.eqb (commitPin pin cursor) "1234") eqn:Ec.
      * left. exists cursor. apply String.eqb_eq in Ec.
        break_if; injection Hstep as <-; simpl; now rewrite Ec.
      * right. break_if; injection Hstep as <-; simpl; auto.
    + injection Hstep as <-. right. simpl. auto.
  - unfold back in Hstep. destruct pw; simpl in Hstep;
      injection Hstep as <-; right; simpl; auto.
  - injection Hstep as <-. right. simpl. auto.
  - injection Hstep as <-. right. simpl. auto.
  - injection Hstep as <-. right. simpl. auto.
  - unfold toastTimeout in Hstep. simpl in Hstep.
    destruct k; injection Hstep as <-; right; simpl; auto.
Qed.

Lemma locked_step (ev : Event) (st st' : DeviceState) :
  ev <> OpenSettings ->
  locked (screen st) = true -> homeTimers st = 0%nat ->
  (forall c, screen st <> LOCK "1234" c) ->
  step ev st = Some st' ->
  (exists c, screen st' = LOCK "1234" c) \/
  (locked (screen st') = true /\ homeTimers st' = 0%nat /\
   forall c, screen st' <> LOCK "1234" c).
Proof.
  intros Hev Hl Hh Hn Hstep.
  destruct st as [pw sd sc t h [|k]]; simpl in Hl, Hh, Hn; subst h;
  destruct sc as [|pin cursor| | | | |]; try discriminate Hl.
  - (* SPLASH *)
    destruct ev; try contradiction; simpl in Hstep;
      unfold left, right, confirm, back, togglePower, splashTimeout,
             homeTimeout, toastTimeout in Hstep;
      simpl in Hstep; repeat break_if; injection Hstep as <-;
      right; simpl; repeat split; auto; try (intros c; discriminate).
  - (* LOCK *)
    apply (locked_step_lock ev pw sd pin cursor t 0 st'); assumption.
  - (* SPLASH, a toast timer pending *)
    destruct ev; try contradiction; simpl in Hstep;
      unfold left, right, confirm, back, togglePower, splashTimeout,
             homeTimeout, toastTimeout in Hstep;
      simpl in Hstep; repeat break_if; injection Hstep as <-;
      right; simpl; repeat split; auto; try (intros c; discriminate).
  - (* LOCK, a toast timer pending *)
    apply (locked_step_lock ev pw sd pin cursor t (S k) st'); assumption.
Qed.

(** X19.  Without the Settings button the lock holds: from the start of
    the session, any sequence of left, right, confirm, back, power and
    timer events that ends on a screen behind the lock has shown
    [LOCK] with the pin ["1234"] on the way. *)
Theorem no_unlock_without_pin (evs : list Event) (st : DeviceState) :
  ~ In OpenSettings evs ->
  run evs init = Some st -> locked (screen st) = false ->
  exists c, In (LOCK "1234" c) (screens evs init).
Proof.
  assert (forall evs s st,
            ~ In OpenSettings evs ->
            locked (screen s) = true -> homeTimers s = 0%nat ->
            (forall c, screen s <> LOCK "1234" c) ->
            run evs s = Some st -> locked (screen st) = false ->
            exists c, In (LOCK "1234" c) (screens evs s)) as G.
  { clear evs st. induction evs as [|ev evs IH];
      intros s st Hno Hl Hh Hn Hrun Hun; simpl in Hrun.
    - injection Hrun as <-. rewrite Hl in Hun. discriminate.
    - destruct (step ev s) as [s1|] eqn:E; [|discriminate].
      simpl. rewrite E.
      destruct (locked_step ev s s1) as [[c Hc] | [Hl1 [Hh1 Hn1]]]; auto.
      + intros ->. apply Hno. now left.
      + exists c. left. exact Hc.
      + destruct (IH s1 st) as [c Hc]; auto.
        * intros Hi. apply Hno. now right.
        * exists c. right. exact Hc. }
  intros Hno Hrun Hun. apply (G evs init st); auto.
  intros c. discriminate.
Qed.

Lemma no_unlock_without_pin_witness :
  exists c, In (LOCK "1234" c)
               (screens (SplashTimeout :: pinEntry ++ [HomeTimeout]) init).
Proof.
  refine (no_unlock_without_pin (SplashTimeout :: pinEntry ++ [HomeTimeout])
            (mkState true (seed init) HOME (Some "PIN OK") 0 4) _
            eq_refl eq_refl).
  simpl. intuition discriminate.
Defined.

(** X20.  The Settings button is not behind the lock: from any powered
    state, the [LOCK] screen included, Settings and then Back end on
    [HOME]; a fresh session gets there without a single [confirm]. *)
Theorem settings_then_back_reaches_home :
  (forall st, powered st = true ->
     run [OpenSettings; Back] st = Some (setScreen HOME st)) /\
  screens [SplashTimeout; OpenSettings; Back] init
  = [LOCK "" 0; SETTINGS 0; HOME].
Proof.
  split; [|reflexivity].
  intros [pw sd sc t h k] Hp. simpl in Hp. subst pw. reflexivity.
Qed.

Lemma settings_then_back_reaches_home_witness :
  run [OpenSettings; Back] (showing (LOCK "" 0))
  = Some (setScreen HOME (showing (LOCK "" 0))).
Proof.
  exact (proj1 settings_then_back_reaches_home (showing (LOCK "" 0)) eq_refl).
Defined.

(* ------------------------------------------------------------------ *)
(** ** Timers and toasts *)

Lemma action_timers (st : DeviceState) (e : MenuEntry) :
  In e (settingsMenu st) ->
  homeTimers (action e st) = homeTimers st /\
  ((toast st = None \/ (0 < toastTimers st)%nat) ->
   (toast (action e st) = None \/ (0 < toastTimers (action e st))%nat)).
Proof.
  simpl. intros [<- | [<- | [<- | [<- | []]]]]; simpl;
    repeat split; auto; intros; right; lia.
Qed.

Lemma step_homeTimers (ev : Event) (st st' : DeviceState) :
  ev <> HomeTimeout -> step ev st = Some st' ->
  (homeTimers st <= homeTimers st')%nat.
Proof.
  intros Hev Hstep. destruct ev; try contradiction; simpl in Hstep;
    try (injection Hstep as <-;
         unfold left, right, back, splashTimeout, toastTimeout;
         repeat break_if; try reflexivity;
         destruct st as [pw sd [] t h []]; simpl; lia).
  unfold confirm in Hstep. destruct (negb (powered st)).
  { injection Hstep as <-. lia. }
  destruct (screen st); repeat break_if;
    try (injection Hstep as <-; simpl; lia).
  destruct (at_index (settingsMenu st) index) as [e|] eqn:He; [|discriminate].
  injection Hstep as <-. apply at_index_In in He.
  destruct (action_timers st e He) as [-> _]. lia.
Qed.

(** X21.  A scheduled jump to [HOME] is never cancelled: whatever events
    come before the timer fires - locking again, leaving the screen,
    powering off - it is still pending, and when it fires the screen is
    [HOME], with the power flag as it was. *)
Theorem home_timer_is_never_cancelled (evs : list Event)
        (st st' : DeviceState) :
  ~ In HomeTimeout evs -> (0 < homeTimers st)%nat ->
  run evs st = Some st' ->
  (0 < homeTimers st')%nat /\
  screen (homeTimeout st') = HOME /\
  powered (homeTimeout st') = powered st'.
Proof.
  intros Hno Hpos Hrun.
  assert (homeTimers st <= homeTimers st')%nat as Hle.
  { revert st Hpos Hrun. induction evs as [|ev evs IH];
      intros st Hpos Hrun; simpl in Hrun.
    - injection Hrun as <-. lia.
    - destruct (step ev st) as [s1|] eqn:E; [|discriminate].
      assert (homeTimers st <= homeTimers s1)%nat
        by (eapply step_homeTimers; eauto; intros ->; apply Hno; now left).
      assert (homeTimers s1 <= homeTimers st')%nat.
      { apply IH; auto; [|lia]. intros Hi. apply Hno. now right. }
      lia. }
  unfold homeTimeout. destruct (homeTimers st') eqn:E; [lia|].
  simpl. repeat split; lia.
Qed.

Lemma home_timer_is_never_cancelled_witness :
  (0 < homeTimers
         (mkState false (seed init) (LOCK "" 0) (Some "PIN OK") 1 4))%nat /\
  screen (homeTimeout
            (mkState false (seed init) (LOCK "" 0) (Some "PIN OK") 1 4))
  = HOME /\
  powered (homeTimeout
             (mkState false (seed init) (LOCK "" 0) (Some "PIN OK") 1 4))
  = powered (mkState false (seed init) (LOCK "" 0) (Some "PIN OK") 1 4).
Proof.
  refine (home_timer_is_never_cancelled
            [OpenSettings; Right; Right; Confirm; TogglePower]
            (mkState true (seed init) (LOCK "1234" 3) (Some "PIN OK") 1 4)
            _ _ _ eq_refl).
  - simpl. intuition discriminate.
  - simpl. lia.
Defined.

Lemma step_toast (ev : Event) (st st' : DeviceState) :
  (toast st = None \/ (0 < toastTimers st)%nat) ->
  step ev st = Some st' ->
  (toast st' = None \/ (0 < toastTimers st')%nat).
Proof.
  intros Inv Hstep. destruct ev; simpl in Hstep;
    try (injection Hstep as <-;
         unfold left, right, back, splashTimeout, homeTimeout, toastTimeout;
         repeat break_if; try assumption;
         destruct st as [pw sd [] t [] []]; simpl in *; auto; fail).
  unfold confirm in Hstep. destruct (negb (powered st)).
  { now injection Hstep as <-. }
  destruct (screen st); repeat break_if;
    try (injection Hstep as <-; simpl; auto; right; lia).
  destruct (at_index (settingsMenu st) index) as [e|] eqn:He; [|discriminate].
  injection Hstep as <-. apply at_index_In in He.
  now apply (action_timers st e He).
Qed.

(** X22.  In every state the session can reach, a toast on display has
    at least one clearing timer pending: no toast stays forever. *)
Theorem shown_toast_has_timer (evs : list Event) (st : DeviceState)
        (msg : string) :
  run evs init = Some st -> toast st = Some msg ->
  (0 < toastTimers st)%nat.
Proof.
  intros Hrun Ht.
  assert (forall evs s s', (toast s = None \/ (0 < toastTimers s)%nat) ->
            run evs s = Some s' ->
            toast s' = None \/ (0 < toastTimers s')%nat) as G.
  { clear. induction evs as [|ev evs IH]; intros s s' Inv H; simpl in H.
    - now injection H as <-.
    - destruct (step ev s) as [s1|] eqn:E; [|discriminate].
      eapply IH; [|exact H]. eapply step_toast; eauto. }
  destruct (G evs init st (or_introl eq_refl) Hrun) as [N | P]; [|exact P].
  rewrite Ht in N. discriminate.
Qed.

Lemma shown_toast_has_timer_witness :
  (0 < toastTimers
         (mkState true (seed init) (SETTINGS 0) (Some "Max") 0 1))%nat.
Proof.
  exact (shown_toast_has_timer [OpenSettings; Confirm]
           (mkState true (seed init) (SETTINGS 0) (Some "Max") 0 1)
           "Max" eq_refl eq_refl).
Defined.

(** X23.  The timers of two toasts are not told apart: when the first one
    fires it clears the second toast, however recent, and the second
    timer is still pending. *)
Theorem first_timer_clears_second_toast (st : DeviceState)
        (msg1 msg2 : string) :
  toast (showToast msg2 (showToast msg1 st)) = Some msg2 /\
  toast (toastTimeout (showToast msg2 (showToast msg1 st))) = None /\
  toastTimers (toastTimeout (showToast msg2 (showToast msg1 st)))
  = S (toastTimers st).
Proof. repeat split. Qed.

(* ------------------------------------------------------------------ *)
(** ** The handlers, composed *)

(** X24.  [confirm] throws in exactly one situation: powered, on
    [SETTINGS], with an index outside the four menu entries. *)
Theorem confirm_throws_iff (st : DeviceState) :
  confirm st = None <->
  powered st = true /\
  exists index, screen st = SETTINGS index /\ (index < 0 \/ 3 < index).
Proof.
  split.
  - unfold confirm. destruct (powered st); simpl; [|discriminate].
    destruct (screen st); repeat break_if; try discriminate.
    intros H. split; [reflexivity|]. exists index. split; [reflexivity|].
    destruct (Z.ltb_spec index 0); [auto|].
    destruct (Z.ltb_spec 3 index); [auto|].
    destruct (menu_entry st index) as [e [He _]]; [lia|].
    rewrite He in H. discriminate.
  - intros [Hp [index [E R]]]. unfold confirm. rewrite Hp, E. simpl negb.
    cbv iota. rewrite at_index_outside; [reflexivity|].
    change (len (settingsMenu st)) with 4. lia.
Qed.

Ltac field_eq :=
  match goal with
  | H : ?C ?a <> ?C ?b |- _ =>
      assert (a <> b) by congruence; clear H
  | H : ?C ?p ?a <> ?C ?p ?b |- _ =>
      assert (a <> b) by congruence; clear H
  | H : ?C ?p ?a ?q <> ?C ?p ?b ?q |- _ =>
      assert (a <> b) by congruence; clear H
  end.

(** X25.  On a screen whose field is in range, [left] undoes a [right]
    that moved the field, and [right] undoes a [left] that moved it:
    only the clamp at the two ends loses a press. *)
Theorem left_right_undo (st : DeviceState) :
  inRange (screen st) ->
  (screen (right st) <> screen st -> left (right st) = st) /\
  (screen (left st) <> screen st -> right (left st) = st).
Proof.
  intros Hin. destruct st as [[] sd sc t h k]; simpl in Hin.
  2:{ split; intros H; now elim H. }
  destruct sc; simpl in Hin; unfold left, right; simpl; split; intros H;
    try (now elim H); field_eq; unfold setScreen; simpl;
    f_equal; f_equal; unfold clamp in *; lia.
Qed.

Lemma left_right_undo_witness :
  left (right (showing (APPS 1))) = showing (APPS 1).
Proof.
  refine (proj1 (left_right_undo (showing (APPS 1)) _) _).
  - simpl. lia.
  - discriminate.
Defined.

(** X26.  [k] presses of [right] on a powered screen with its field in
    range add [k] to the field and stop at the last position; nothing
    else in the state changes.  Screens without a field stay as they
    are. *)
Theorem right_presses_saturate (k : nat) (st : DeviceState) :
  powered st = true -> inRange (screen st) ->
  Nat.iter k right st =
  setScreen
    match screen st with
    | LOCK pin cursor => LOCK pin (Z.min (cursor + Z.of_nat k) 3)
    | APPS index => APPS (Z.min (index + Z.of_nat k) 2)
    | TX_REVIEW app step approved =>
        TX_REVIEW app (Z.min (step + Z.of_nat k) 5) approved
    | SETTINGS index => SETTINGS (Z.min (index + Z.of_nat k) 3)
    | s => s
    end st /\
  screen (Nat.iter k right st) =
    match screen st with
    | LOCK pin cursor => LOCK pin (Z.min (cursor + Z.of_nat k) 3)
    | APPS index => APPS (Z.min (index + Z.of_nat k) 2)
    | TX_REVIEW app step approved =>
        TX_REVIEW app (Z.min (step + Z.of_nat k) 5) approved
    | SETTINGS index => SETTINGS (Z.min (index + Z.of_nat k) 3)
    | s => s
    end /\
  sameButScreen st (Nat.iter k right st).
Proof.
  intros Hp Hin.
  assert (Nat.iter k right st =
          setScreen
            match screen st with
            | LOCK pin cursor => LOCK pin (Z.min (cursor + Z.of_nat k) 3)
            | APPS index => APPS (Z.min (index + Z.of_nat k) 2)
            | TX_REVIEW app step approved =>
                TX_REVIEW app (Z.min (step + Z.of_nat k) 5) approved
            | SETTINGS index => SETTINGS (Z.min (index + Z.of_nat k) 3)
            | s => s
            end st) as E.
  { destruct st as [pw sd sc t h n]. simpl in Hp, Hin. subst pw.
    induction k as [|k IH].
    - destruct sc; simpl in *; unfold setScreen; simpl; try reflexivity;
        f_equal; f_equal; lia.
    - cbn [Nat.iter nat_rect]. unfold Nat.iter in IH. rewrite IH.
      rewrite Nat2Z.inj_succ.
      destruct sc; simpl in Hin; unfold right, setScreen; simpl;
        try reflexivity; f_equal; f_equal; unfold clamp; lia. }
  split; [exact E|]. rewrite E. unfold sameButScreen. repeat split.
Qed.

Lemma right_presses_saturate_witness :
  Nat.iter 9 right (showing (APPS 0)) =
  setScreen (APPS (Z.min (0 + Z.of_nat 9) 2)) (showing (APPS 0)) /\
  screen (Nat.iter 9 right (showing (APPS 0)))
  = APPS (Z.min (0 + Z.of_nat 9) 2) /\
  sameButScreen (showing (APPS 0)) (Nat.iter 9 right (showing (APPS 0))).
Proof.
  refine (right_presses_saturate 9 (showing (APPS 0)) eq_refl _).
  simpl. lia.
Defined.

(** X27.  An approval is not taken back on the review screen: from
    [TX_REVIEW] with [approved] true, every event except Back, the
    Settings button and a pending jump to [HOME] leaves the screen a
    [TX_REVIEW] of the same app, still approved (left, right and confirm
    may still move [step]). *)
Theorem approval_is_kept (ev : Event) (st st' : DeviceState)
        (app : option WalletApp) (step0 : Z) :
  ev <> Back -> ev <> OpenSettings -> ev <> HomeTimeout ->
  screen st = TX_REVIEW app step0 (Some true) ->
  step ev st = Some st' ->
  exists step1, screen st' = TX_REVIEW app step1 (Some true).
Proof.
  intros H1 H2 H3 E Hstep.
  destruct st as [pw sd sc t h [|k]]; simpl in E; subst sc;
    destruct ev; try contradiction; simpl in Hstep;
    unfold left, right, confirm, togglePower, splashTimeout, toastTimeout
      in Hstep;
    simpl in Hstep; repeat break_if; injection Hstep as <-; simpl; eauto.
Qed.

Lemma approval_is_kept_witness :
  exists step1,
    screen (setScreen (TX_REVIEW (Some eth) 4 (Some true))
              (showing (TX_REVIEW (Some eth) 5 (Some true))))
    = TX_REVIEW (Some eth) step1 (Some true).
Proof.
  refine (approval_is_kept Left
            (showing (TX_REVIEW (Some eth) 5 (Some true))) _ (Some eth) 5
            _ _ _ eq_refl eq_refl); discriminate.
Defined.

(** X28.  A key press does what one of the buttons Power, Left, Right or
    Both does, or nothing: there is no key for Back or for Settings.
    [p] and [P] toggle the power in every state; while powered off every
    other key is ignored. *)
Theorem onKey_dispatch (key : string) (st : DeviceState) :
  (exists evs,
     onKey key st = run evs st /\
     (evs = [] \/ evs = [TogglePower] \/ evs = [Left] \/ evs = [Right] \/
      evs = [Confirm])) /\
  onKey "p" st = Some (togglePower st) /\
  onKey "P" st = Some (togglePower st) /\
  (powered st = false -> toLowerCase key <> "p"%string ->
   onKey key st = Some st).
Proof.
  split; [|split; [|split]]; try reflexivity.
  - unfold onKey. repeat break_if.
    + exists [TogglePower]. auto 10.
    + exists []. auto.
    + exists [Left]. auto 10.
    + exists [Right]. auto 10.
    + exists [Confirm]. split; [|auto 10]. simpl. now destruct (confirm st).
    + exists []. auto.
  - intros Hp Hk. unfold onKey. apply String.eqb_neq in Hk.
    now rewrite Hk, Hp.
Qed.

Lemma onKey_dispatch_witness :
  onKey "Enter" (setPowered false (showing HOME))
  = Some (setPowered false (showing HOME)).
Proof.
  refine (proj2 (proj2 (proj2
            (onKey_dispatch "Enter" (setPowered false (showing HOME)))))
            eq_refl _).
  discriminate.
Defined.

(** X29.  Power off and on again resumes where the device was: two
    toggles, by button or by key, give back the same state, and the
    renderer draws the same screen as before. *)
Theorem power_cycle_restores (st : DeviceState) :
  togglePower (togglePower st) = st /\
  (exists st1, onKey "p" st = Some st1 /\ onKey "p" st1 = Some st) /\
  render (togglePower (togglePower st)) = render st.
Proof.
  assert (togglePower (togglePower st) = st) as T
    by (destruct st as [[] sd sc t h k]; reflexivity).
  split; [exact T|]. split; [|now rewrite T].
  exists (togglePower st). split; [reflexivity|].
  change (onKey "p" (togglePower st))
    with (Some (togglePower (togglePower st))).
  now rewrite T.
Qed.

(** X30.  Powered off, the renderer draws the power-off view whatever
    the screen; the Settings button is not guarded by the power flag,
    so it still replaces the screen by [SETTINGS] at index 0 underneath,
    which shows once the power is back. *)
Theorem settings_button_ignores_power (st : DeviceState) :
  powered st = false ->
  render st = Some PowerOffView /\
  screen (openSettings st) = SETTINGS 0 /\
  render (openSettings st) = Some PowerOffView /\
  render (togglePower (openSettings st)) = Some (SettingsView "Brightness").
Proof.
  intros Hp. destruct st as [pw sd sc t h k]. simpl in Hp. subst pw.
  repeat split.
Qed.

Lemma settings_button_ignores_power_witness :
  render (setPowered false (showing (LOCK "" 0))) = Some PowerOffView /\
  screen (openSettings (setPowered false (showing (LOCK "" 0)))) = SETTINGS 0 /\
  render (openSettings (setPowered false (showing (LOCK "" 0))))
  = Some PowerOffView /\
  render (togglePower (openSettings (setPowered false (showing (LOCK "" 0)))))
  = Some (SettingsView "Brightness").
Proof.
  exact (settings_button_ignores_power
           (setPowered false (showing (LOCK "" 0))) eq_refl).
Defined.

(* ------------------------------------------------------------------ *)
(** ** The alphabet of the addresses *)




